(** * F1 race simulation core: track spline, car state machine, race director

    A shallow embedding of [f1_telemetry/core/track.py], [car.py] and
    [race.py].  A float is a rational number ([Qc], the canonical
    rationals, so that equality is Leibniz equality); the one non-finite
    value the code uses, [float('inf')], is a separate constructor.
    Python exceptions (an index or a modulo by zero on an empty list) are
    the [None] of an option type.  A car object is a record in the list
    [cars]; a reference to a car (the sorted list of [_update_positions],
    the winner) is its index in that list.

    The arithmetic comes in two versions.  The state machine of the car
    and the race controller are stated over exact arithmetic: every
    operation gives the exact rational result.  The two properties of
    the wrap [% 1.0] (the position of a car on the lap, the period of
    the spline) depend on how floats round, so for them module [B64]
    embeds the track and the car again with every operation rounded to
    the nearest binary64 number. *)

From Stdlib Require Import ZArith QArith Qcanon Qround Lqa String.
From stdpp Require Import base numbers list option.

Local Open Scope Z_scope.
Local Open Scope Qc_scope.

(** ** Numbers *)

(** The decimal literal [n/d] of the source. *)
Definition dec (n d : Z) : Qc := Q2Qc (n # Z.to_pos d).

(** An int used as a float. *)
Definition zq (n : Z) : Qc := Qc_of_Z n.

(** A Python float that may be [float('inf')]. *)
Inductive xfloat : Type :=
  | Fin (q : Qc)
  | PosInf.

Definition xfloat_ltb (a b : xfloat) : bool :=
  match a, b with
  | Fin x, Fin y => bool_decide (x < y)
  | Fin _, PosInf => true
  | PosInf, _ => false
  end.

(** [min(a, b)] and [max(a, b)] of Python on two numbers. *)
Definition py_min (a b : Qc) : Qc := if decide (b < a) then b else a.
Definition py_max (a b : Qc) : Qc := if decide (a < b) then b else a.
Definition py_abs (a : Qc) : Qc := if decide (a < 0) then - a else a.

(** [int(x)] on a float: truncation toward zero. *)
Definition py_int (x : Qc) : Z :=
  if decide (0 <= x) then Qfloor x else Qceiling x.

(** [x % 1.0] in exact arithmetic: the result has the sign of the
    divisor.  [B64.fmod1] is the rounded operation of CPython. *)
Definition fmod1 (x : Qc) : Qc := x - zq (Qfloor x).

(** [l[i]] of Python: negative indices count from the end, an index out
    of range raises [IndexError] ([None]). *)
Definition py_index {A} (l : list A) (i : Z) : option A :=
  let n := Z.of_nat (length l) in
  if decide (0 <= i)%Z then l !! Z.to_nat i
  else if decide (- n <= i)%Z then l !! Z.to_nat (n + i)
  else None.

(** [a % n] on ints: [ZeroDivisionError] when [n] is zero. *)
Definition py_mod (a n : Z) : option Z :=
  if decide (n = 0)%Z then None else Some (a mod n)%Z.

(** ** Track geometry ([track.py]) *)

Record TrackPoint : Type := {
  x : Qc;
  y : Qc;
  z : Qc;
  bank : Qc
}.

Record DRSZone : Type := {
  start : Qc;
  end_ : Qc
}.

Record PitLane : Type := {
  entry_t : Qc;
  exit_t : Qc;
  pit_stop_duration : Qc
}.

Record Track : Type := {
  points : list TrackPoint;
  drs_zones : list DRSZone;
  pit_lane : PitLane
}.

Definition contains (zone : DRSZone) (t : Qc) : bool :=
  if decide (start zone < end_ zone)
  then bool_decide (start zone <= t) && bool_decide (t <= end_ zone)
  else bool_decide (start zone <= t) || bool_decide (t <= end_ zone).

Definition _catmull_rom (p0 p1 p2 p3 : TrackPoint) (t : Qc) : Qc * Qc * Qc :=
  let t2 := t * t in
  let t3 := t2 * t in
  let cr (f : TrackPoint -> Qc) :=
    dec 1 2 * ((zq 2 * f p1) +
               (- f p0 + f p2) * t +
               (zq 2 * f p0 - zq 5 * f p1 + zq 4 * f p2 - f p3) * t2 +
               (- f p0 + zq 3 * f p1 - zq 3 * f p2 + f p3) * t3) in
  (cr x, cr y, cr z).

Definition get_point_at (tr : Track) (t : Qc) : option (Qc * Qc * Qc) :=
  let t := fmod1 t in
  let n := Z.of_nat (length (points tr)) in
  let segment := t * zq n in
  let i := py_int segment in
  let local_t := segment - zq i in
  i0 ← py_mod (i - 1) n; p0 ← py_index (points tr) i0;
  i1 ← py_mod i n; p1 ← py_index (points tr) i1;
  i2 ← py_mod (i + 1) n; p2 ← py_index (points tr) i2;
  i3 ← py_mod (i + 2) n; p3 ← py_index (points tr) i3;
  Some (_catmull_rom p0 p1 p2 p3 local_t).

Definition get_bank_at (tr : Track) (t : Qc) : option Qc :=
  let t := fmod1 t in
  let n := Z.of_nat (length (points tr)) in
  let segment := t * zq n in
  let i := py_int segment in
  let local_t := segment - zq i in
  i1 ← py_mod i n; p1 ← py_index (points tr) i1;
  i2 ← py_mod (i + 1) n; p2 ← py_index (points tr) i2;
  Some (bank p1 + (bank p2 - bank p1) * local_t).

Definition is_in_drs_zone (tr : Track) (t : Qc) : bool :=
  existsb (fun zone => contains zone t) (drs_zones tr).

(** ** Cars ([car.py]) *)

Inductive CarState : Type :=
  | GRID | RACING | PIT_ENTRY | IN_PIT | PIT_EXIT | DNF | FINISHED.

Global Instance CarState_eq_dec : EqDecision CarState.
Proof. solve_decision. Defined.

Record Team : Type := {
  name : string;
  driver : string;
  number : Z;
  color : Z * Z * Z
}.

Record CarTelemetry : Type := {
  speed : Qc;
  rpm : Z;
  gear : Z;
  throttle : Qc;
  brake : Qc;
  drs : bool;
  ers_deployment : Qc;
  tire_wear : Qc;
  fuel_remaining : Qc;
  engine_temp : Qc;
  brake_temp : Qc;
  g_force_lat : Qc;
  g_force_long : Qc
}.

Record LapTiming : Type := {
  current_lap : Z;
  lap_time : Qc;
  last_lap_time : Qc;
  best_lap_time : xfloat;
  sector_1_time : Qc;
  sector_2_time : Qc;
  sector_3_time : Qc;
  gap_to_leader : xfloat;
  gap_to_ahead : xfloat
}.

Record Car : Type := {
  team : Team;
  start_position : Z;
  position : Z;
  _track_t : Qc;
  state : CarState;
  telemetry : CarTelemetry;
  timing : LapTiming;
  pit_stops_made : Z;
  pit_stop_timer : Qc;
  target_pit_lap : option Z;
  _current_speed : Qc;
  _target_speed : Qc;
  _base_performance : Qc;
  prim_path : option string;
  damage : Qc
}.

(** Field assignments [obj.f = v]. *)

Definition set_lap_time (v : Qc) (l : LapTiming) : LapTiming :=
  {| current_lap := current_lap l; lap_time := v;
     last_lap_time := last_lap_time l; best_lap_time := best_lap_time l;
     sector_1_time := sector_1_time l; sector_2_time := sector_2_time l;
     sector_3_time := sector_3_time l; gap_to_leader := gap_to_leader l;
     gap_to_ahead := gap_to_ahead l |}.

Definition set_gap_to_leader (v : xfloat) (l : LapTiming) : LapTiming :=
  {| current_lap := current_lap l; lap_time := lap_time l;
     last_lap_time := last_lap_time l; best_lap_time := best_lap_time l;
     sector_1_time := sector_1_time l; sector_2_time := sector_2_time l;
     sector_3_time := sector_3_time l; gap_to_leader := v;
     gap_to_ahead := gap_to_ahead l |}.

Definition set_gap_to_ahead (v : xfloat) (l : LapTiming) : LapTiming :=
  {| current_lap := current_lap l; lap_time := lap_time l;
     last_lap_time := last_lap_time l; best_lap_time := best_lap_time l;
     sector_1_time := sector_1_time l; sector_2_time := sector_2_time l;
     sector_3_time := sector_3_time l; gap_to_leader := gap_to_leader l;
     gap_to_ahead := v |}.

Definition set_position (v : Z) (c : Car) : Car :=
  {| team := team c; start_position := start_position c; position := v;
     _track_t := _track_t c; state := state c; telemetry := telemetry c;
     timing := timing c; pit_stops_made := pit_stops_made c;
     pit_stop_timer := pit_stop_timer c; target_pit_lap := target_pit_lap c;
     _current_speed := _current_speed c; _target_speed := _target_speed c;
     _base_performance := _base_performance c; prim_path := prim_path c;
     damage := damage c |}.

Definition set__track_t (v : Qc) (c : Car) : Car :=
  {| team := team c; start_position := start_position c;
     position := position c; _track_t := v; state := state c;
     telemetry := telemetry c; timing := timing c;
     pit_stops_made := pit_stops_made c; pit_stop_timer := pit_stop_timer c;
     target_pit_lap := target_pit_lap c; _current_speed := _current_speed c;
     _target_speed := _target_speed c;
     _base_performance := _base_performance c; prim_path := prim_path c;
     damage := damage c |}.

Definition set_state (v : CarState) (c : Car) : Car :=
  {| team := team c; start_position := start_position c;
     position := position c; _track_t := _track_t c; state := v;
     telemetry := telemetry c; timing := timing c;
     pit_stops_made := pit_stops_made c; pit_stop_timer := pit_stop_timer c;
     target_pit_lap := target_pit_lap c; _current_speed := _current_speed c;
     _target_speed := _target_speed c;
     _base_performance := _base_performance c; prim_path := prim_path c;
     damage := damage c |}.

Definition set_telemetry (v : CarTelemetry) (c : Car) : Car :=
  {| team := team c; start_position := start_position c;
     position := position c; _track_t := _track_t c; state := state c;
     telemetry := v; timing := timing c; pit_stops_made := pit_stops_made c;
     pit_stop_timer := pit_stop_timer c; target_pit_lap := target_pit_lap c;
     _current_speed := _current_speed c; _target_speed := _target_speed c;
     _base_performance := _base_performance c; prim_path := prim_path c;
     damage := damage c |}.

Definition set_timing (v : LapTiming) (c : Car) : Car :=
  {| team := team c; start_position := start_position c;
     position := position c; _track_t := _track_t c; state := state c;
     telemetry := telemetry c; timing := v;
     pit_stops_made := pit_stops_made c; pit_stop_timer := pit_stop_timer c;
     target_pit_lap := target_pit_lap c; _current_speed := _current_speed c;
     _target_speed := _target_speed c;
     _base_performance := _base_performance c; prim_path := prim_path c;
     damage := damage c |}.

Definition set_pit_stops_made (v : Z) (c : Car) : Car :=
  {| team := team c; start_position := start_position c;
     position := position c; _track_t := _track_t c; state := state c;
     telemetry := telemetry c; timing := timing c; pit_stops_made := v;
     pit_stop_timer := pit_stop_timer c; target_pit_lap := target_pit_lap c;
     _current_speed := _current_speed c; _target_speed := _target_speed c;
     _base_performance := _base_performance c; prim_path := prim_path c;
     damage := damage c |}.

Definition set_pit_stop_timer (v : Qc) (c : Car) : Car :=
  {| team := team c; start_position := start_position c;
     position := position c; _track_t := _track_t c; state := state c;
     telemetry := telemetry c; timing := timing c;
     pit_stops_made := pit_stops_made c; pit_stop_timer := v;
     target_pit_lap := target_pit_lap c; _current_speed := _current_speed c;
     _target_speed := _target_speed c;
     _base_performance := _base_performance c; prim_path := prim_path c;
     damage := damage c |}.

Definition set_target_pit_lap (v : option Z) (c : Car) : Car :=
  {| team := team c; start_position := start_position c;
     position := position c; _track_t := _track_t c; state := state c;
     telemetry := telemetry c; timing := timing c;
     pit_stops_made := pit_stops_made c; pit_stop_timer := pit_stop_timer c;
     target_pit_lap := v; _current_speed := _current_speed c;
     _target_speed := _target_speed c;
     _base_performance := _base_performance c; prim_path := prim_path c;
     damage := damage c |}.

Definition set__current_speed (v : Qc) (c : Car) : Car :=
  {| team := team c; start_position := start_position c;
     position := position c; _track_t := _track_t c; state := state c;
     telemetry := telemetry c; timing := timing c;
     pit_stops_made := pit_stops_made c; pit_stop_timer := pit_stop_timer c;
     target_pit_lap := target_pit_lap c; _current_speed := v;
     _target_speed := _target_speed c;
     _base_performance := _base_performance c; prim_path := prim_path c;
     damage := damage c |}.

Definition set__target_speed (v : Qc) (c : Car) : Car :=
  {| team := team c; start_position := start_position c;
     position := position c; _track_t := _track_t c; state := state c;
     telemetry := telemetry c; timing := timing c;
     pit_stops_made := pit_stops_made c; pit_stop_timer := pit_stop_timer c;
     target_pit_lap := target_pit_lap c; _current_speed := _current_speed c;
     _target_speed := v; _base_performance := _base_performance c;
     prim_path := prim_path c; damage := damage c |}.

Definition set_damage (v : Qc) (c : Car) : Car :=
  {| team := team c; start_position := start_position c;
     position := position c; _track_t := _track_t c; state := state c;
     telemetry := telemetry c; timing := timing c;
     pit_stops_made := pit_stops_made c; pit_stop_timer := pit_stop_timer c;
     target_pit_lap := target_pit_lap c; _current_speed := _current_speed c;
     _target_speed := _target_speed c;
     _base_performance := _base_performance c; prim_path := prim_path c;
     damage := v |}.


(** *** Physics constants *)

Definition MAX_SPEED : Qc := zq 350.
Definition MIN_SPEED : Qc := zq 80.
Definition ACCELERATION : Qc := dec 15 1000.
Definition DECELERATION : Qc := dec 25 1000.
Definition TIRE_WEAR_RATE : Qc := dec 2 100.

(** [Car.__init__]. *)
Definition new_Car (tm : Team) (start_pos : Z) : Car :=
  {| team := tm; start_position := start_pos; position := start_pos;
     _track_t := 0; state := GRID;
     telemetry :=
       {| speed := 0; rpm := 0; gear := 1; throttle := 0; brake := 0;
          drs := false; ers_deployment := 0; tire_wear := zq 100;
          fuel_remaining := zq 100; engine_temp := zq 90; brake_temp := zq 400;
          g_force_lat := 0; g_force_long := 0 |};
     timing :=
       {| current_lap := 0; lap_time := 0; last_lap_time := 0;
          best_lap_time := PosInf; sector_1_time := 0; sector_2_time := 0;
          sector_3_time := 0; gap_to_leader := Fin 0; gap_to_ahead := Fin 0 |};
     pit_stops_made := 0; pit_stop_timer := 0; target_pit_lap := None;
     _current_speed := 0; _target_speed := 0;
     _base_performance := 1 + zq (6 - start_pos) * dec 1 100;
     prim_path := None; damage := 0 |}.

(** The property [track_t] (getter). *)
Definition track_t (c : Car) : Qc := _track_t c.

Definition _on_lap_complete (c : Car) : Car :=
  let tm := timing c in
  let tl := telemetry c in
  let best :=
    if xfloat_ltb (Fin (lap_time tm)) (best_lap_time tm)
       && bool_decide (0 < lap_time tm)
    then Fin (lap_time tm) else best_lap_time tm in
  let wear_factor := 1 + damage c * dec 1 100 in
  let wear := py_max 0 (tire_wear tl - TIRE_WEAR_RATE * wear_factor * zq 100) in
  let fuel := py_max 0 (fuel_remaining tl - zq 2) in
  set_telemetry
    {| speed := speed tl; rpm := rpm tl; gear := gear tl;
       throttle := throttle tl; brake := brake tl; drs := drs tl;
       ers_deployment := ers_deployment tl; tire_wear := wear;
       fuel_remaining := fuel; engine_temp := engine_temp tl;
       brake_temp := brake_temp tl; g_force_lat := g_force_lat tl;
       g_force_long := g_force_long tl |}
    (set_timing
       {| current_lap := current_lap tm + 1; lap_time := 0;
          last_lap_time := lap_time tm; best_lap_time := best;
          sector_1_time := sector_1_time tm;
          sector_2_time := sector_2_time tm;
          sector_3_time := sector_3_time tm;
          gap_to_leader := gap_to_leader tm;
          gap_to_ahead := gap_to_ahead tm |} c).

(** The property [track_t] (setter): wrap at 1.0, detect the lap edge. *)
Definition track_t_setter (value : Qc) (c : Car) : Car :=
  let old_t := _track_t c in
  let c1 := set__track_t (fmod1 value) c in
  if bool_decide (dec 95 100 < old_t) && bool_decide (_track_t c1 < dec 5 100)
  then _on_lap_complete c1 else c1.

Definition _update_target_speed (tr : Track) (c : Car) : option Car :=
  b ← get_bank_at tr (track_t c);
  let bank := py_abs b in
  let target :=
    if decide (zq 8 < bank) then MIN_SPEED + zq 50
    else if decide (zq 5 < bank) then MIN_SPEED + zq 100
    else if decide (zq 2 < bank) then MAX_SPEED - zq 80
    else MAX_SPEED in
  let target :=
    if is_in_drs_zone tr (track_t c) && drs (telemetry c)
    then py_min (target + zq 20) MAX_SPEED else target in
  Some (set__target_speed target c).

Definition set_throttle_brake (th br : Qc) (c : Car) : Car :=
  let tl := telemetry c in
  set_telemetry
    {| speed := speed tl; rpm := rpm tl; gear := gear tl;
       throttle := th; brake := br; drs := drs tl;
       ers_deployment := ers_deployment tl; tire_wear := tire_wear tl;
       fuel_remaining := fuel_remaining tl; engine_temp := engine_temp tl;
       brake_temp := brake_temp tl; g_force_lat := g_force_lat tl;
       g_force_long := g_force_long tl |} c.

Definition _update_speed (dt : Qc) (c : Car) : Car :=
  if decide (_current_speed c < _target_speed c) then
    let v := py_min (_current_speed c + zq 50 * dt) (_target_speed c) in
    set_throttle_brake 1 0 (set__current_speed v c)
  else
    let v := py_max (_current_speed c - zq 100 * dt) (_target_speed c) in
    set_throttle_brake 0 (py_min 1 ((v - _target_speed c) / zq 100))
      (set__current_speed v c).

Definition _update_telemetry (tr : Track) (c : Car) : option Car :=
  let tl := telemetry c in
  let in_drs_zone := is_in_drs_zone tr (track_t c) in
  b ← get_bank_at tr (track_t c);
  Some (set_telemetry
    {| speed := _current_speed c;
       rpm := py_int (zq 8000 + (_current_speed c / MAX_SPEED) * zq 7000);
       gear := Z.min 8 (Z.max 1 (py_int (_current_speed c / zq 40)));
       throttle := throttle tl; brake := brake tl;
       drs := in_drs_zone && xfloat_ltb (gap_to_ahead (timing c)) (Fin 1);
       ers_deployment := ers_deployment tl; tire_wear := tire_wear tl;
       fuel_remaining := fuel_remaining tl; engine_temp := engine_temp tl;
       brake_temp := brake_temp tl; g_force_lat := b * dec 3 10;
       g_force_long := (throttle tl - brake tl) * zq 2 |} c).

(** [if self.target_pit_lap and ...]: [None] and [0] are both falsy. *)
Definition truthy (o : option Z) : bool :=
  match o with Some n => negb (n =? 0)%Z | None => false end.

Definition _should_pit (tr : Track) (c : Car) : bool :=
  if decide (state c = PIT_ENTRY) then false
  else if truthy (target_pit_lap c)
          && bool_decide (default 0%Z (target_pit_lap c) <= current_lap (timing c))%Z
          && bool_decide (py_abs (track_t c - entry_t (pit_lane tr)) < dec 2 100)
  then true
  else if bool_decide (tire_wear (telemetry c) < zq 20)
          && bool_decide (py_abs (track_t c - entry_t (pit_lane tr)) < dec 2 100)
  then true
  else false.

Definition _enter_pit (c : Car) : Car := set_state PIT_ENTRY c.

Definition start_pit_stop (duration : Qc) (c : Car) : Car :=
  set_pit_stop_timer duration (set_state IN_PIT c).

Definition _complete_pit_stop (c : Car) : Car :=
  let c := set_state PIT_EXIT c in
  let c := set_pit_stops_made (pit_stops_made c + 1) c in
  let tl := telemetry c in
  let c := set_telemetry
    {| speed := speed tl; rpm := rpm tl; gear := gear tl;
       throttle := throttle tl; brake := brake tl; drs := drs tl;
       ers_deployment := ers_deployment tl; tire_wear := zq 100;
       fuel_remaining := zq 100; engine_temp := engine_temp tl;
       brake_temp := brake_temp tl; g_force_lat := g_force_lat tl;
       g_force_long := g_force_long tl |} c in
  let c := set_damage (py_max 0 (damage c - zq 20)) c in
  set_target_pit_lap None c.

Definition _update_pit_stop (dt speed_multiplier : Qc) (c : Car) : Car :=
  let c := set_pit_stop_timer (pit_stop_timer c - dt * speed_multiplier) c in
  if decide (pit_stop_timer c <= 0) then _complete_pit_stop c else c.

Definition exit_pit (c : Car) : Car := set_state RACING c.

Definition start_race (c : Car) : Car :=
  set__current_speed 0 (set_state RACING c).

Definition apply_damage (amount : Qc) (c : Car) : Car :=
  let c := set_damage (py_min (zq 100) (damage c + amount)) c in
  if decide (zq 100 <= damage c) then set_state DNF c else c.

(** [Car.update]: [None] when a track query raises. *)
Definition car_update (dt : Qc) (tr : Track) (speed_multiplier : Qc)
    (c : Car) : option Car :=
  if decide (state c = DNF \/ state c = FINISHED) then Some c
  else if decide (state c = GRID) then Some c
  else if decide (state c = IN_PIT)
  then Some (_update_pit_stop dt speed_multiplier c)
  else
    c ← _update_target_speed tr c;
    let c := _update_speed dt c in
    c ← _update_telemetry tr c;
    let speed_factor := _current_speed c / MAX_SPEED in
    let performance :=
      _base_performance c * (tire_wear (telemetry c) / zq 100) in
    let performance := performance * (1 - damage c * dec 5 1000) in
    let movement :=
      ACCELERATION * speed_factor * performance * dt * speed_multiplier in
    let c := track_t_setter (track_t c + movement) c in
    let c := set_timing
      (set_lap_time (lap_time (timing c) + dt * speed_multiplier) (timing c))
      c in
    Some (if _should_pit tr c then _enter_pit c else c).

(** [Car.to_dict]: the per-car part of the snapshot handed to telemetry. *)
Record CarDict : Type := {
  d_team : string;
  d_driver : string;
  d_number : Z;
  d_position : Z;
  d_track_t : Qc;
  d_state : CarState;
  d_lap : Z;
  d_speed : Qc;
  d_rpm : Z;
  d_gear : Z;
  d_throttle : Qc;
  d_brake : Qc;
  d_drs : bool;
  d_tire_wear : Qc;
  d_fuel : Qc;
  d_lap_time : Qc;
  d_last_lap : Qc;
  d_best_lap : option Qc;
  d_gap_to_leader : xfloat;
  d_damage : Qc;
  d_pit_stops : Z
}.

Definition to_dict (c : Car) : CarDict :=
  {| d_team := name (team c); d_driver := driver (team c);
     d_number := number (team c); d_position := position c;
     d_track_t := track_t c; d_state := state c;
     d_lap := current_lap (timing c);
     d_speed := speed (telemetry c); d_rpm := rpm (telemetry c);
     d_gear := gear (telemetry c); d_throttle := throttle (telemetry c);
     d_brake := brake (telemetry c); d_drs := drs (telemetry c);
     d_tire_wear := tire_wear (telemetry c);
     d_fuel := fuel_remaining (telemetry c);
     d_lap_time := lap_time (timing c);
     d_last_lap := last_lap_time (timing c);
     d_best_lap :=
       match best_lap_time (timing c) with Fin q => Some q | PosInf => None end;
     d_gap_to_leader := gap_to_leader (timing c);
     d_damage := damage c; d_pit_stops := pit_stops_made c |}.

(** ** The race controller ([race.py]) *)

(** [sorted(l, key=...)]: Python's sort is stable, and a stable sort by a
    total preorder has one result; it is computed here by insertion, each
    element placed before the first one that is not strictly smaller. *)
Fixpoint insert_sorted {A} (ltb : A -> A -> bool) (a : A) (l : list A) : list A :=
  match l with
  | [] => [a]
  | b :: l' => if ltb b a then b :: insert_sorted ltb a l' else a :: l
  end.

Definition py_sorted {A} (ltb : A -> A -> bool) (l : list A) : list A :=
  foldr (insert_sorted ltb) [] l.

(** The sort key of [_update_positions] and the order of Python tuples. *)
Definition sort_key (c : Car) : Z * Qc * bool :=
  ((- current_lap (timing c))%Z,
   if decide (state c = RACING) then - track_t c else zq (-1000),
   bool_decide (state c <> DNF)).

Definition bool_ltb (a b : bool) : bool := negb a && b.

Definition key_ltb (k1 k2 : Z * Qc * bool) : bool :=
  let '(a1, b1, c1) := k1 in
  let '(a2, b2, c2) := k2 in
  if decide (a1 = a2) then
    if decide (b1 = b2) then bool_ltb c1 c2 else bool_decide (b1 < b2)
  else bool_decide (a1 < a2)%Z.

(** The race-level part of the snapshot handed to telemetry. *)
Record RaceData : Type := {
  rd_lap : Z;
  rd_total_laps : Z;
  rd_race_time : Qc;
  rd_safety_car : bool;
  rd_leader : option string;
  rd_standings : list string
}.

Record RaceController : Type := {
  track : Track;
  total_laps : Z;
  cars : list Car;
  is_running : bool;
  is_paused : bool;
  race_time : Qc;
  race_current_lap : Z;
  speed_multiplier : Qc;
  safety_car_active : bool;
  safety_car_lap : Z;
  race_finished : bool;
  winner : option nat;
  draws : nat;
  last_snapshot : option (list CarDict * RaceData)
}.

Definition set_cars (v : list Car) (r : RaceController) : RaceController :=
  {| track := track r; total_laps := total_laps r; cars := v;
     is_running := is_running r; is_paused := is_paused r;
     race_time := race_time r; race_current_lap := race_current_lap r;
     speed_multiplier := speed_multiplier r;
     safety_car_active := safety_car_active r;
     safety_car_lap := safety_car_lap r; race_finished := race_finished r;
     winner := winner r; draws := draws r;
     last_snapshot := last_snapshot r |}.

Definition set_race_time (v : Qc) (r : RaceController) : RaceController :=
  {| track := track r; total_laps := total_laps r; cars := cars r;
     is_running := is_running r; is_paused := is_paused r;
     race_time := v; race_current_lap := race_current_lap r;
     speed_multiplier := speed_multiplier r;
     safety_car_active := safety_car_active r;
     safety_car_lap := safety_car_lap r; race_finished := race_finished r;
     winner := winner r; draws := draws r;
     last_snapshot := last_snapshot r |}.

Definition set_race_current_lap (v : Z) (r : RaceController) : RaceController :=
  {| track := track r; total_laps := total_laps r; cars := cars r;
     is_running := is_running r; is_paused := is_paused r;
     race_time := race_time r; race_current_lap := v;
     speed_multiplier := speed_multiplier r;
     safety_car_active := safety_car_active r;
     safety_car_lap := safety_car_lap r; race_finished := race_finished r;
     winner := winner r; draws := draws r;
     last_snapshot := last_snapshot r |}.

Definition set_draws (v : nat) (r : RaceController) : RaceController :=
  {| track := track r; total_laps := total_laps r; cars := cars r;
     is_running := is_running r; is_paused := is_paused r;
     race_time := race_time r; race_current_lap := race_current_lap r;
     speed_multiplier := speed_multiplier r;
     safety_car_active := safety_car_active r;
     safety_car_lap := safety_car_lap r; race_finished := race_finished r;
     winner := winner r; draws := v;
     last_snapshot := last_snapshot r |}.

Definition set_last_snapshot (v : option (list CarDict * RaceData))
    (r : RaceController) : RaceController :=
  {| track := track r; total_laps := total_laps r; cars := cars r;
     is_running := is_running r; is_paused := is_paused r;
     race_time := race_time r; race_current_lap := race_current_lap r;
     speed_multiplier := speed_multiplier r;
     safety_car_active := safety_car_active r;
     safety_car_lap := safety_car_lap r; race_finished := race_finished r;
     winner := winner r; draws := draws r; last_snapshot := v |}.

(** [self.race_finished = True; self.winner = car]. *)
Definition record_winner (i : nat) (r : RaceController) : RaceController :=
  {| track := track r; total_laps := total_laps r; cars := cars r;
     is_running := is_running r; is_paused := is_paused r;
     race_time := race_time r; race_current_lap := race_current_lap r;
     speed_multiplier := speed_multiplier r;
     safety_car_active := safety_car_active r;
     safety_car_lap := safety_car_lap r; race_finished := true;
     winner := Some i; draws := draws r;
     last_snapshot := last_snapshot r |}.

(** *** Standings and gaps *)

(** The sorted list of car references, as indices into [cars]. *)
Definition sorted_cars (cs : list Car) : list nat :=
  py_sorted
    (fun i j =>
       match cs !! i, cs !! j with
       | Some ci, Some cj => key_ltb (sort_key ci) (sort_key cj)
       | _, _ => false
       end)
    (seq 0 (length cs)).

(** [for i, car in enumerate(sorted_cars): car.position = i + 1]. *)
Fixpoint assign_positions (i : Z) (order : list nat) (cs : list Car) : list Car :=
  match order with
  | [] => cs
  | j :: order' =>
      assign_positions (i + 1) order' (alter (set_position (i + 1)%Z) j cs)
  end.

(** The body of the gap loop for [car] behind [ahead]. *)
Definition gap_behind (ahead car : Car) : Car :=
  if decide (state car = DNF) then
    set_timing
      (set_gap_to_ahead PosInf (set_gap_to_leader PosInf (timing car))) car
  else
    let g :=
      if decide (current_lap (timing car) = current_lap (timing ahead)) then
        let gap := track_t ahead - track_t car in
        let gap := if decide (gap < 0) then gap + 1 else gap in
        gap * zq 90
      else zq ((current_lap (timing ahead) - current_lap (timing car)) * 90) in
    set_timing
      (set_gap_to_leader (Fin g) (set_gap_to_ahead (Fin g) (timing car))) car.

(** [for i, car in enumerate(sorted_cars[1:], 1)], with
    [ahead = sorted_cars[i - 1]] kept as [prev]. *)
Fixpoint gaps_loop (prev : nat) (rest : list nat) (cs : list Car) : list Car :=
  match rest with
  | [] => cs
  | j :: rest' =>
      match cs !! prev with
      | Some ahead => gaps_loop j rest' (alter (gap_behind ahead) j cs)
      | None => gaps_loop j rest' cs
      end
  end.

Definition set_leader_gap (c : Car) : Car :=
  set_timing (set_gap_to_leader (Fin 0) (timing c)) c.

(** [RaceController._update_positions]; [sorted_cars[0]] raises on an
    empty car list. *)
Definition _update_positions (r : RaceController) : option RaceController :=
  let order := sorted_cars (cars r) in
  let cs := assign_positions 0 order (cars r) in
  match order with
  | [] => None
  | leader :: rest =>
      let cs := alter set_leader_gap leader cs in
      let cs := gaps_loop leader rest cs in
      lead ← cs !! leader;
      Some (set_race_current_lap (current_lap (timing lead)) (set_cars cs r))
  end.

(** *** Collisions *)

(** [random.uniform(1, 5)] draws from the global generator; the model
    takes the stream of its results as [rng] and counts the draws made. *)
Definition collide_pair (rng : nat -> Qc) (i j : nat)
    (st : list Car * nat) : list Car * nat :=
  match st.1 !! i, st.1 !! j with
  | Some car1, Some car2 =>
      if decide (state car2 <> RACING) then st
      else
        let dist := py_abs (track_t car1 - track_t car2) in
        let dist := if decide (dec 1 2 < dist) then 1 - dist else dist in
        if decide (dist < dec 3 1000) then
          let damage := rng st.2 in
          (alter (apply_damage damage) j (alter (apply_damage damage) i st.1),
           S st.2)
        else st
  | _, _ => st
  end.

(** One round of the outer loop: [car1] is tested once, before its inner
    loop over [self.cars[i + 1:]]. *)
Definition collide_from (rng : nat -> Qc) (st : list Car * nat) (i : nat)
    : list Car * nat :=
  match st.1 !! i with
  | Some car1 =>
      if decide (state car1 <> RACING) then st
      else
        foldl (fun st j => collide_pair rng i j st) st
          (seq (S i) (length st.1 - S i))
  | None => st
  end.

Definition _check_collisions (rng : nat -> Qc) (r : RaceController)
    : RaceController :=
  let st :=
    foldl (collide_from rng) (cars r, draws r) (seq 0 (length (cars r))) in
  set_draws st.2 (set_cars st.1 r).

(** *** Telemetry snapshot *)

(** What [_update_telemetry] hands to the telemetry manager.  The manager
    is an external collaborator; of it the model keeps the current-state
    cache ([_car_data], [_race_data]) as [last_snapshot], not its time
    stamps, rolling buffers and subscribers. *)
Definition snapshot (r : RaceController) : list CarDict * RaceData :=
  (to_dict <$> cars r,
   {| rd_lap := race_current_lap r; rd_total_laps := total_laps r;
      rd_race_time := race_time r; rd_safety_car := safety_car_active r;
      rd_leader := (fun c => driver (team c)) <$> head (cars r);
      rd_standings :=
        (fun c => driver (team c)) <$>
          py_sorted (fun a b => (position a <? position b)%Z) (cars r) |}).

(** *** Race finish *)

Definition finish_step (r : RaceController) (i : nat) : RaceController :=
  match cars r !! i with
  | Some car =>
      if bool_decide (total_laps r <= current_lap (timing car))%Z
         && bool_decide (state car = RACING)
      then
        let r := if race_finished r then r else record_winner i r in
        set_cars (alter (set_state FINISHED) i (cars r)) r
      else r
  | None => r
  end.

Definition _check_race_finish (r : RaceController) : RaceController :=
  foldl finish_step r (seq 0 (length (cars r))).

(** *** The tick *)

Definition _update_telemetry_race (r : RaceController) : RaceController :=
  set_last_snapshot (Some (snapshot r)) r.

(** [RaceController.update]; the scene-graph write-back at its end only
    reads the cars and is not part of the model. *)
Definition update (rng : nat -> Qc) (dt : Qc) (r : RaceController)
    : option RaceController :=
  if negb (is_running r) || is_paused r || race_finished r then Some r
  else
    let r := set_race_time (race_time r + dt * speed_multiplier r) r in
    cs ← mapM (car_update dt (track r) (speed_multiplier r)) (cars r);
    let r := set_cars cs r in
    r ← _update_positions r;
    let r := _check_collisions rng r in
    let r := _update_telemetry_race r in
    Some (_check_race_finish r).

(** [RaceController.get_car]: the outer option is the exception channel,
    the inner one Python's [None]. *)
Definition get_car (r : RaceController) (index : Z) : option (option Car) :=
  if decide (0 <= index < Z.of_nat (length (cars r)))%Z
  then c ← py_index (cars r) index; Some (Some c)
  else Some None.

(** ** Public operations of a car, as data *)

Inductive CarOp : Type :=
  | OpUpdate (dt speed_multiplier : Qc)
  | OpApplyDamage (amount : Qc)
  | OpStartPitStop (duration : Qc)
  | OpExitPit
  | OpStartRace.

Definition run_op (tr : Track) (o : CarOp) (c : Car) : option Car :=
  match o with
  | OpUpdate dt m => car_update dt tr m c
  | OpApplyDamage a => Some (apply_damage a c)
  | OpStartPitStop d => Some (start_pit_stop d c)
  | OpExitPit => Some (exit_pit c)
  | OpStartRace => Some (start_race c)
  end.

Fixpoint run_ops (tr : Track) (os : list CarOp) (c : Car) : option Car :=
  match os with
  | [] => Some c
  | o :: os' => c' ← run_op tr o c; run_ops tr os' c'
  end.

(** The half-open unit interval [0,1). *)
Definition in_unit (t : Qc) : Prop := 0 <= t /\ t < 1.

(** ** Car: one tick, with the bank angle already looked up *)

Definition target_for (tr : Track) (b : Qc) (c : Car) : Qc :=
  let bank := py_abs b in
  let target :=
    if decide (zq 8 < bank) then MIN_SPEED + zq 50
    else if decide (zq 5 < bank) then MIN_SPEED + zq 100
    else if decide (zq 2 < bank) then MAX_SPEED - zq 80
    else MAX_SPEED in
  if is_in_drs_zone tr (track_t c) && drs (telemetry c)
  then py_min (target + zq 20) MAX_SPEED else target.

Definition telemetry_for (tr : Track) (b : Qc) (c : Car) : Car :=
  let tl := telemetry c in
  set_telemetry
    {| speed := _current_speed c;
       rpm := py_int (zq 8000 + (_current_speed c / MAX_SPEED) * zq 7000);
       gear := Z.min 8 (Z.max 1 (py_int (_current_speed c / zq 40)));
       throttle := throttle tl; brake := brake tl;
       drs := is_in_drs_zone tr (track_t c)
              && xfloat_ltb (gap_to_ahead (timing c)) (Fin 1);
       ers_deployment := ers_deployment tl; tire_wear := tire_wear tl;
       fuel_remaining := fuel_remaining tl; engine_temp := engine_temp tl;
       brake_temp := brake_temp tl; g_force_lat := b * dec 3 10;
       g_force_long := (throttle tl - brake tl) * zq 2 |} c.

Definition movement_of (dt m : Qc) (c : Car) : Qc :=
  ACCELERATION * (_current_speed c / MAX_SPEED)
  * (_base_performance c * (tire_wear (telemetry c) / zq 100)
     * (1 - damage c * dec 5 1000))
  * dt * m.

Definition racing_tick (b dt : Qc) (tr : Track) (m : Qc) (c : Car) : Car :=
  let c := set__target_speed (target_for tr b c) c in
  let c := _update_speed dt c in
  let c := telemetry_for tr b c in
  let c := track_t_setter (track_t c + movement_of dt m c) c in
  let c := set_timing (set_lap_time (lap_time (timing c) + dt * m) (timing c)) c in
  if _should_pit tr c then _enter_pit c else c.

Definition moves (s : CarState) : Prop :=
  s = RACING \/ s = PIT_ENTRY \/ s = PIT_EXIT.

Global Instance moves_dec s : Decision (moves s).
Proof. unfold moves. apply _. Defined.

(** ** Sample data *)

Definition sample_point (a b c d : Z) : TrackPoint :=
  {| x := zq a; y := zq b; z := zq c; bank := zq d |}.

(** A square circuit of four control points, the default DRS zones and
    the default pit lane. *)
Definition sample_track : Track :=
  {| points :=
       [sample_point 0 0 0 0; sample_point 100 0 0 6;
        sample_point 100 0 100 0; sample_point 0 0 100 3];
     drs_zones :=
       [ {| start := dec 40 100; end_ := dec 48 100 |};
         {| start := dec 62 100; end_ := dec 72 100 |} ];
     pit_lane :=
       {| entry_t := dec 92 100; exit_t := dec 6 100;
          pit_stop_duration := dec 35 10 |} |}.

Definition sample_team (s : string) (n : Z) : Team :=
  {| name := s; driver := s; number := n; color := (0, 0, 0)%Z |}.

(** A car as [RaceController.__init__] and [start_race] leave it. *)
Definition sample_car (s : string) (slot : Z) : Car :=
  start_race (set_target_pit_lap (Some 20%Z) (new_Car (sample_team s slot) slot)).

(** The same car placed at [t] with [laps] laps and [dmg] damage. *)
Definition sample_car_at (s : string) (slot : Z) (t : Qc) (laps : Z)
    (dmg : Qc) : Car :=
  let c := sample_car s slot in
  set_damage dmg
    (set_timing
       {| current_lap := laps; lap_time := 0; last_lap_time := 0;
          best_lap_time := PosInf; sector_1_time := 0; sector_2_time := 0;
          sector_3_time := 0; gap_to_leader := Fin 0; gap_to_ahead := Fin 0 |}
       (set__track_t t c)).

Definition sample_race (cs : list Car) (laps : Z) : RaceController :=
  {| track := sample_track; total_laps := laps; cars := cs;
     is_running := true; is_paused := false; race_time := 0;
     race_current_lap := 0; speed_multiplier := dec 1 4;
     safety_car_active := false; safety_car_lap := 0;
     race_finished := false; winner := None; draws := 0;
     last_snapshot := None |}.

(** A generator whose every draw is 3. *)
Definition sample_rng (k : nat) : Qc := zq 3.

(** A racing car at 0.5 and a retired car at 0.2, both on lap 0. *)
Definition racing_and_retired : RaceController :=
  sample_race
    [sample_car_at "A" 1 (dec 1 2) 0 0;
     apply_damage (zq 100) (sample_car_at "B" 2 (dec 2 10) 0 0)] 5.

(** Two retired cars. *)
Definition all_retired : RaceController :=
  sample_race
    [apply_damage (zq 100) (sample_car_at "A" 1 (dec 1 2) 0 0);
     apply_damage (zq 100) (sample_car_at "B" 2 (dec 2 10) 0 0)] 5.

(** Three racing cars side by side at 0.5, the first one point of damage
    short of retirement. *)
Definition three_abreast : RaceController :=
  sample_race
    [sample_car_at "A" 1 (dec 1 2) 0 (zq 99);
     sample_car_at "B" 2 (dec 1 2) 0 0;
     sample_car_at "C" 3 (dec 1 2) 0 0] 5.

(** The same three cars with the second one short of retirement. *)
Definition three_abreast_mid : RaceController :=
  sample_race
    [sample_car_at "A" 1 (dec 1 2) 0 0;
     sample_car_at "B" 2 (dec 1 2) 0 (zq 99);
     sample_car_at "C" 3 (dec 1 2) 0 0] 5.

(** Two racing cars on the same lap, a quarter of a lap apart. *)
Definition two_racing : RaceController :=
  sample_race
    [sample_car_at "A" 1 (dec 1 4) 1 0;
     sample_car_at "B" 2 (dec 1 2) 1 0] 5.

(** Car A just before the line of a one-lap race, car B far behind. *)
Definition photo_finish : RaceController :=
  sample_race
    [sample_car_at "A" 1 (dec 9995 10000) 0 0;
     sample_car_at "B" 2 (dec 3 10) 0 0] 1.

(** Car A just past the line with its lap counted, not yet checked. *)
Definition at_the_line : RaceController :=
  sample_race
    [sample_car_at "A" 1 (dec 1 16000) 1 0;
     sample_car_at "B" 2 (dec 3 10) 0 0] 1.

(** ** Statements about sequences of car operations *)

(** No negative amount is passed to [apply_damage]. *)
Definition nonneg_amount (o : CarOp) : Prop :=
  match o with OpApplyDamage a => 0 <= a | _ => True end.

(** The operations that never assign a lifecycle state outright. *)
Definition update_or_damage (o : CarOp) : Prop :=
  match o with OpUpdate _ _ | OpApplyDamage _ => True | _ => False end.

(** "Once in DNF the car stays in DNF", for one start and one sequence. *)
Definition dnf_permanent (tr : Track) (c : Car) (os : list CarOp) : Prop :=
  forall c', run_ops tr os c = Some c' -> state c = DNF -> state c' = DNF.

(** ** The gap rule in the words of the specification *)

(** The gap of [car] to the car ranked immediately [ahead]: unbounded for
    a DNF car; on the same lap the track-position difference, wrapped when
    negative, times 90 seconds; otherwise the lap difference times 90. *)
Definition expected_gap (ahead car : Car) : xfloat :=
  if decide (state car = DNF) then PosInf
  else if decide (current_lap (timing car) = current_lap (timing ahead))
  then
    let d := track_t ahead - track_t car in
    Fin ((if decide (d < 0) then d + 1 else d) * zq 90)
  else Fin (zq ((current_lap (timing ahead) - current_lap (timing car)) * 90)).

(** ** Statements about the standings *)

(** "A DNF car's gaps are unbounded", for one race state. *)
Definition dnf_gaps_unbounded (r : RaceController) : Prop :=
  forall r' j c',
    _update_positions r = Some r' -> cars r' !! j = Some c' ->
    state c' = DNF ->
    gap_to_leader (timing c') = PosInf /\ gap_to_ahead (timing c') = PosInf.

(** ** Statements about a whole tick *)

(** Where a car is and how its lap is timed. *)
Definition kinematics (c : Car) : Qc * Qc * Z * Qc * Qc * xfloat :=
  (track_t c, _current_speed c, current_lap (timing c), lap_time (timing c),
   last_lap_time (timing c), best_lap_time (timing c)).

(** "The tick changes nothing." *)
Definition noop_tick (rng : nat -> Qc) (dt : Qc) (r : RaceController) : Prop :=
  update rng dt r = Some r.

(** The guard at the head of [RaceController.update]. *)
Definition halted (r : RaceController) : bool :=
  negb (is_running r) || is_paused r || race_finished r.

(** The test of [_check_race_finish] on one car. *)
Definition crosses_line (total : Z) (c : Car) : bool :=
  bool_decide (total <= current_lap (timing c))%Z
  && bool_decide (state c = RACING).

(** What a halted tick leaves of the race apart from the cars. *)
Definition race_frame (r : RaceController)
    : Track * Z * bool * bool * Qc * Qc :=
  (track r, total_laps r, is_running r, is_paused r, race_time r,
   speed_multiplier r).

(** "A racing car still short of the distance is moved by the tick as its
    own [update] moves it." *)
Definition others_continue (rng : nat -> Qc) (dt : Qc) (r : RaceController)
    : Prop :=
  forall r' i c c1,
    update rng dt r = Some r' -> cars r !! i = Some c ->
    state c = RACING -> (current_lap (timing c) < total_laps r)%Z ->
    car_update dt (track r) (speed_multiplier r) c = Some c1 ->
    exists c', cars r' !! i = Some c' /\ track_t c' = track_t c1.

(** ** Binary64 arithmetic

    The two claims about the wrap of the track parameter depend on how
    floats round.  For them the float operations are modelled as IEEE 754
    binary64 does them on finite values: the exact rational result,
    rounded to the nearest double, ties to even, with gradual underflow.
    Overflow to infinity, NaN and the sign of zero are not modelled. *)

(** [2 ** k] for any integer [k]. *)
Definition pow2 (k : Z) : Qc :=
  if decide (0 <= k)%Z then zq (2 ^ k) else / zq (2 ^ (- k)).

(** The nearest integer, ties to the even one. *)
Definition round_half_even (q : Qc) : Z :=
  let f := Qfloor q in
  let r := q - zq f in
  if decide (r < dec 1 2) then f
  else if decide (dec 1 2 < r) then (f + 1)%Z
  else if Z.even f then f else (f + 1)%Z.

(** The [e] with [2 ** e <= |q| < 2 ** (e + 1)], for [q <> 0]. *)
Definition b64_exponent (q : Qc) : Z :=
  let e := (Z.log2 (Z.abs (Qnum q)) - Z.log2 (Z.pos (Qden q)))%Z in
  if decide (py_abs q < pow2 e) then (e - 1)%Z else e.

(** The double nearest to [q]: 53 significant bits, the exponent not
    below that of the smallest normal number. *)
Definition round_b64 (q : Qc) : Qc :=
  if decide (q = 0) then 0
  else
    let e := Z.max (b64_exponent q) (-1022) in
    let ulp := pow2 (e - 52) in
    zq (round_half_even (q / ulp)) * ulp.

Module B64.

(** The float operations of Python: the exact result, rounded. *)
Definition fadd (a b : Qc) : Qc := round_b64 (a + b).
Definition fsub (a b : Qc) : Qc := round_b64 (a - b).
Definition fmul (a b : Qc) : Qc := round_b64 (a * b).
Definition fdiv (a b : Qc) : Qc := round_b64 (a / b).

(** The decimal literal [n/d] as the double Python reads it as. *)
Definition lit (n d : Z) : Qc := round_b64 (dec n d).

(** [x % 1.0] as CPython computes it: C's [fmod], which is exact and has
    the sign of [x], and then [+ 1.0], a rounded addition, when that
    remainder is negative. *)
Definition fmod1 (x : Qc) : Qc :=
  let m := x - zq (py_int x) in
  if decide (m < 0) then fadd m 1 else m.

(** *** Track *)

Definition _catmull_rom (p0 p1 p2 p3 : TrackPoint) (t : Qc) : Qc * Qc * Qc :=
  let t2 := fmul t t in
  let t3 := fmul t2 t in
  let cr (f : TrackPoint -> Qc) :=
    fmul (dec 1 2)
      (fadd
         (fadd
            (fadd (fmul (zq 2) (f p1))
                  (fmul (fadd (- f p0) (f p2)) t))
            (fmul
               (fsub
                  (fadd (fsub (fmul (zq 2) (f p0)) (fmul (zq 5) (f p1)))
                        (fmul (zq 4) (f p2)))
                  (f p3))
               t2))
         (fmul
            (fadd
               (fsub (fadd (- f p0) (fmul (zq 3) (f p1)))
                     (fmul (zq 3) (f p2)))
               (f p3))
            t3)) in
  (cr x, cr y, cr z).

Definition get_point_at (tr : Track) (t : Qc) : option (Qc * Qc * Qc) :=
  let t := fmod1 t in
  let n := Z.of_nat (length (points tr)) in
  let segment := fmul t (zq n) in
  let i := py_int segment in
  let local_t := fsub segment (zq i) in
  i0 ← py_mod (i - 1) n; p0 ← py_index (points tr) i0;
  i1 ← py_mod i n; p1 ← py_index (points tr) i1;
  i2 ← py_mod (i + 1) n; p2 ← py_index (points tr) i2;
  i3 ← py_mod (i + 2) n; p3 ← py_index (points tr) i3;
  Some (_catmull_rom p0 p1 p2 p3 local_t).

Definition get_bank_at (tr : Track) (t : Qc) : option Qc :=
  let t := fmod1 t in
  let n := Z.of_nat (length (points tr)) in
  let segment := fmul t (zq n) in
  let i := py_int segment in
  let local_t := fsub segment (zq i) in
  i1 ← py_mod i n; p1 ← py_index (points tr) i1;
  i2 ← py_mod (i + 1) n; p2 ← py_index (points tr) i2;
  Some (fadd (bank p1) (fmul (fsub (bank p2) (bank p1)) local_t)).

(** *** Car *)

Definition MAX_SPEED : Qc := zq 350.
Definition MIN_SPEED : Qc := zq 80.
Definition ACCELERATION : Qc := lit 15 1000.
Definition TIRE_WEAR_RATE : Qc := lit 2 100.

Definition new_Car (tm : Team) (start_pos : Z) : Car :=
  {| team := tm; start_position := start_pos; position := start_pos;
     _track_t := 0; state := GRID;
     telemetry :=
       {| speed := 0; rpm := 0; gear := 1; throttle := 0; brake := 0;
          drs := false; ers_deployment := 0; tire_wear := zq 100;
          fuel_remaining := zq 100; engine_temp := zq 90; brake_temp := zq 400;
          g_force_lat := 0; g_force_long := 0 |};
     timing :=
       {| current_lap := 0; lap_time := 0; last_lap_time := 0;
          best_lap_time := PosInf; sector_1_time := 0; sector_2_time := 0;
          sector_3_time := 0; gap_to_leader := Fin 0; gap_to_ahead := Fin 0 |};
     pit_stops_made := 0; pit_stop_timer := 0; target_pit_lap := None;
     _current_speed := 0; _target_speed := 0;
     _base_performance := fadd 1 (fmul (zq (6 - start_pos)) (lit 1 100));
     prim_path := None; damage := 0 |}.

Definition _on_lap_complete (c : Car) : Car :=
  let tm := timing c in
  let tl := telemetry c in
  let best :=
    if xfloat_ltb (Fin (lap_time tm)) (best_lap_time tm)
       && bool_decide (0 < lap_time tm)
    then Fin (lap_time tm) else best_lap_time tm in
  let wear_factor := fadd 1 (fmul (damage c) (lit 1 100)) in
  let wear :=
    py_max 0
      (fsub (tire_wear tl) (fmul (fmul TIRE_WEAR_RATE wear_factor) (zq 100))) in
  let fuel := py_max 0 (fsub (fuel_remaining tl) (zq 2)) in
  set_telemetry
    {| speed := speed tl; rpm := rpm tl; gear := gear tl;
       throttle := throttle tl; brake := brake tl; drs := drs tl;
       ers_deployment := ers_deployment tl; tire_wear := wear;
       fuel_remaining := fuel; engine_temp := engine_temp tl;
       brake_temp := brake_temp tl; g_force_lat := g_force_lat tl;
       g_force_long := g_force_long tl |}
    (set_timing
       {| current_lap := current_lap tm + 1; lap_time := 0;
          last_lap_time := lap_time tm; best_lap_time := best;
          sector_1_time := sector_1_time tm;
          sector_2_time := sector_2_time tm;
          sector_3_time := sector_3_time tm;
          gap_to_leader := gap_to_leader tm;
          gap_to_ahead := gap_to_ahead tm |} c).

Definition track_t_setter (value : Qc) (c : Car) : Car :=
  let old_t := _track_t c in
  let c1 := set__track_t (fmod1 value) c in
  if bool_decide (lit 95 100 < old_t) && bool_decide (_track_t c1 < lit 5 100)
  then _on_lap_complete c1 else c1.

Definition _update_target_speed (tr : Track) (c : Car) : option Car :=
  b ← get_bank_at tr (track_t c);
  let bank := py_abs b in
  let target :=
    if decide (zq 8 < bank) then fadd MIN_SPEED (zq 50)
    else if decide (zq 5 < bank) then fadd MIN_SPEED (zq 100)
    else if decide (zq 2 < bank) then fsub MAX_SPEED (zq 80)
    else MAX_SPEED in
  let target :=
    if is_in_drs_zone tr (track_t c) && drs (telemetry c)
    then py_min (fadd target (zq 20)) MAX_SPEED else target in
  Some (set__target_speed target c).

Definition _update_speed (dt : Qc) (c : Car) : Car :=
  if decide (_current_speed c < _target_speed c) then
    let v :=
      py_min (fadd (_current_speed c) (fmul (zq 50) dt)) (_target_speed c) in
    set_throttle_brake 1 0 (set__current_speed v c)
  else
    let v :=
      py_max (fsub (_current_speed c) (fmul (zq 100) dt)) (_target_speed c) in
    set_throttle_brake 0 (py_min 1 (fdiv (fsub v (_target_speed c)) (zq 100)))
      (set__current_speed v c).

Definition _update_telemetry (tr : Track) (c : Car) : option Car :=
  let tl := telemetry c in
  let in_drs_zone := is_in_drs_zone tr (track_t c) in
  b ← get_bank_at tr (track_t c);
  Some (set_telemetry
    {| speed := _current_speed c;
       rpm :=
         py_int
           (fadd (zq 8000)
                 (fmul (fdiv (_current_speed c) MAX_SPEED) (zq 7000)));
       gear := Z.min 8 (Z.max 1 (py_int (fdiv (_current_speed c) (zq 40))));
       throttle := throttle tl; brake := brake tl;
       drs := in_drs_zone && xfloat_ltb (gap_to_ahead (timing c)) (Fin 1);
       ers_deployment := ers_deployment tl; tire_wear := tire_wear tl;
       fuel_remaining := fuel_remaining tl; engine_temp := engine_temp tl;
       brake_temp := brake_temp tl; g_force_lat := fmul b (lit 3 10);
       g_force_long := fmul (fsub (throttle tl) (brake tl)) (zq 2) |} c).

Definition _should_pit (tr : Track) (c : Car) : bool :=
  if decide (state c = PIT_ENTRY) then false
  else if truthy (target_pit_lap c)
          && bool_decide (default 0%Z (target_pit_lap c) <= current_lap (timing c))%Z
          && bool_decide
               (py_abs (fsub (track_t c) (entry_t (pit_lane tr))) < lit 2 100)
  then true
  else if bool_decide (tire_wear (telemetry c) < zq 20)
          && bool_decide
               (py_abs (fsub (track_t c) (entry_t (pit_lane tr))) < lit 2 100)
  then true
  else false.

Definition _complete_pit_stop (c : Car) : Car :=
  let c := set_state PIT_EXIT c in
  let c := set_pit_stops_made (pit_stops_made c + 1) c in
  let tl := telemetry c in
  let c := set_telemetry
    {| speed := speed tl; rpm := rpm tl; gear := gear tl;
       throttle := throttle tl; brake := brake tl; drs := drs tl;
       ers_deployment := ers_deployment tl; tire_wear := zq 100;
       fuel_remaining := zq 100; engine_temp := engine_temp tl;
       brake_temp := brake_temp tl; g_force_lat := g_force_lat tl;
       g_force_long := g_force_long tl |} c in
  let c := set_damage (py_max 0 (fsub (damage c) (zq 20))) c in
  set_target_pit_lap None c.

Definition _update_pit_stop (dt speed_multiplier : Qc) (c : Car) : Car :=
  let c :=
    set_pit_stop_timer (fsub (pit_stop_timer c) (fmul dt speed_multiplier)) c in
  if decide (pit_stop_timer c <= 0) then _complete_pit_stop c else c.

Definition apply_damage (amount : Qc) (c : Car) : Car :=
  let c := set_damage (py_min (zq 100) (fadd (damage c) amount)) c in
  if decide (zq 100 <= damage c) then set_state DNF c else c.

(** The position handed to the wrap by a tick: [track_t + movement]. *)
Definition wrap_value (dt speed_multiplier : Qc) (c : Car) : Qc :=
  let speed_factor := fdiv (_current_speed c) MAX_SPEED in
  let performance :=
    fmul (_base_performance c) (fdiv (tire_wear (telemetry c)) (zq 100)) in
  let performance :=
    fmul performance (fsub 1 (fmul (damage c) (lit 5 1000))) in
  let movement :=
    fmul (fmul (fmul (fmul ACCELERATION speed_factor) performance) dt)
      speed_multiplier in
  fadd (track_t c) movement.

Definition car_update (dt : Qc) (tr : Track) (speed_multiplier : Qc)
    (c : Car) : option Car :=
  if decide (state c = DNF \/ state c = FINISHED) then Some c
  else if decide (state c = GRID) then Some c
  else if decide (state c = IN_PIT)
  then Some (_update_pit_stop dt speed_multiplier c)
  else
    c ← _update_target_speed tr c;
    let c := _update_speed dt c in
    c ← _update_telemetry tr c;
    let c := track_t_setter (wrap_value dt speed_multiplier c) c in
    let c := set_timing
      (set_lap_time (fadd (lap_time (timing c)) (fmul dt speed_multiplier))
         (timing c))
      c in
    Some (if _should_pit tr c then _enter_pit c else c).

(** One tick of a moving car, with the bank angle already looked up. *)
Definition target_for (tr : Track) (b : Qc) (c : Car) : Qc :=
  let bank := py_abs b in
  let target :=
    if decide (zq 8 < bank) then fadd MIN_SPEED (zq 50)
    else if decide (zq 5 < bank) then fadd MIN_SPEED (zq 100)
    else if decide (zq 2 < bank) then fsub MAX_SPEED (zq 80)
    else MAX_SPEED in
  if is_in_drs_zone tr (track_t c) && drs (telemetry c)
  then py_min (fadd target (zq 20)) MAX_SPEED else target.

Definition telemetry_for (tr : Track) (b : Qc) (c : Car) : Car :=
  let tl := telemetry c in
  set_telemetry
    {| speed := _current_speed c;
       rpm :=
         py_int
           (fadd (zq 8000)
                 (fmul (fdiv (_current_speed c) MAX_SPEED) (zq 7000)));
       gear := Z.min 8 (Z.max 1 (py_int (fdiv (_current_speed c) (zq 40))));
       throttle := throttle tl; brake := brake tl;
       drs := is_in_drs_zone tr (track_t c)
              && xfloat_ltb (gap_to_ahead (timing c)) (Fin 1);
       ers_deployment := ers_deployment tl; tire_wear := tire_wear tl;
       fuel_remaining := fuel_remaining tl; engine_temp := engine_temp tl;
       brake_temp := brake_temp tl; g_force_lat := fmul b (lit 3 10);
       g_force_long := fmul (fsub (throttle tl) (brake tl)) (zq 2) |} c.

(** The car after the speed and telemetry updates of a tick, before it
    moves. *)
Definition settled (b dt : Qc) (tr : Track) (c : Car) : Car :=
  telemetry_for tr b
    (_update_speed dt (set__target_speed (target_for tr b c) c)).

Definition racing_tick (b dt : Qc) (tr : Track) (m : Qc) (c : Car) : Car :=
  let c := settled b dt tr c in
  let c := track_t_setter (wrap_value dt m c) c in
  let c := set_timing
    (set_lap_time (fadd (lap_time (timing c)) (fmul dt m)) (timing c)) c in
  if _should_pit tr c then _enter_pit c else c.

Definition run_op (tr : Track) (o : CarOp) (c : Car) : option Car :=
  match o with
  | OpUpdate dt m => car_update dt tr m c
  | OpApplyDamage a => Some (apply_damage a c)
  | OpStartPitStop d => Some (start_pit_stop d c)
  | OpExitPit => Some (exit_pit c)
  | OpStartRace => Some (start_race c)
  end.

Fixpoint run_ops (tr : Track) (os : list CarOp) (c : Car) : option Car :=
  match os with
  | [] => Some c
  | o :: os' => c' ← run_op tr o c; run_ops tr os' c'
  end.

End B64.


(** "[get_point_at] gives the same point one lap further on", for one
    track and one float [t]; the sum [t + 1.0] is a float addition. *)
Definition periodic_at (tr : Track) (t : Qc) : Prop :=
  B64.get_point_at tr (B64.fadd t 1) = B64.get_point_at tr t.



(** [sample_track] with its decimal constants read as floats. *)
Definition float_track : Track :=
  {| points := points sample_track;
     drs_zones :=
       [ {| start := B64.lit 40 100; end_ := B64.lit 48 100 |};
         {| start := B64.lit 62 100; end_ := B64.lit 72 100 |} ];
     pit_lane :=
       {| entry_t := B64.lit 92 100; exit_t := B64.lit 6 100;
          pit_stop_duration := B64.lit 35 10 |} |}.



(** ** Arithmetic on canonical rationals *)

Lemma this_plus (a b : Qc) : (this (a + b) == this a + this b)%Q.
Proof. exact (Qred_correct _). Qed.

Lemma this_opp (a : Qc) : (this (- a) == - this a)%Q.
Proof. exact (Qred_correct _). Qed.

Lemma this_minus (a b : Qc) : (this (a - b) == this a - this b)%Q.
Proof. unfold Qcminus. rewrite this_plus, this_opp. reflexivity. Qed.

Lemma this_mult (a b : Qc) : (this (a * b) == this a * this b)%Q.
Proof. exact (Qred_correct _). Qed.

Lemma this_Q2Qc (a : Q) : (this (Q2Qc a) == a)%Q.
Proof. exact (Qred_correct _). Qed.

Lemma this_of_Z (n : Z) : this (zq n) = inject_Z n.
Proof. reflexivity. Qed.

Lemma this_dec (n d : Z) : (this (dec n d) == n # Z.to_pos d)%Q.
Proof. exact (Qred_correct _). Qed.

Lemma Qc_eq_this (a b : Qc) : a = b <-> (this a == this b)%Q.
Proof. split; [intros ->; reflexivity | apply Qc_is_canon]. Qed.

(** Linear goals over [Qc]: move to [Q] and call [lra]. *)
Ltac qc_prep :=
  unfold Qcle, Qclt in *;
  repeat match goal with
  | H : @eq Qc _ _ |- _ => apply Qc_eq_this in H
  | H : ~ @eq Qc _ _ |- _ => rewrite Qc_eq_this in H
  | |- @eq Qc _ _ => apply Qc_is_canon
  end;
  repeat first
    [ rewrite this_plus in * | rewrite this_minus in *
    | rewrite this_mult in * | rewrite this_opp in *
    | rewrite this_dec in * | rewrite this_Q2Qc in *
    | rewrite this_of_Z in * ];
  unfold inject_Z in *; cbn [Z.to_pos] in *.

Ltac qc_lra := qc_prep; lra.

Lemma py_min_le_l (a b : Qc) : py_min a b <= a.
Proof. unfold py_min. case_decide; qc_lra. Qed.

Lemma py_min_le_r (a b : Qc) : py_min a b <= b.
Proof. unfold py_min. case_decide; qc_lra. Qed.

Lemma py_min_glb (a b c : Qc) : c <= a -> c <= b -> c <= py_min a b.
Proof. unfold py_min. case_decide; auto. Qed.

Lemma py_max_ge_l (a b : Qc) : a <= py_max a b.
Proof. unfold py_max. case_decide; qc_lra. Qed.

Lemma py_max_lub (a b c : Qc) : a <= c -> b <= c -> py_max a b <= c.
Proof. unfold py_max. case_decide; auto. Qed.


Lemma Qfloor_unique (v : Q) (k : Z) :
  (inject_Z k <= v)%Q -> (v < inject_Z (k + 1))%Q -> Qfloor v = k.
Proof.
  intros Hlo Hhi.
  pose proof (Qfloor_le v) as Flo. pose proof (Qlt_floor v) as Fhi.
  assert (inject_Z (Qfloor v) < inject_Z (k + 1))%Q as H1
    by (eapply Qle_lt_trans; eassumption).
  assert (inject_Z k < inject_Z (Qfloor v + 1))%Q as H2
    by (eapply Qle_lt_trans; eassumption).
  rewrite <- Zlt_Qlt in H1, H2. lia.
Qed.

Lemma Qfloor_plus_1 (v : Qc) : Qfloor (v + 1)%Qc = (Qfloor v + 1)%Z.
Proof.
  apply Qfloor_unique.
  - rewrite this_plus, inject_Z_plus. pose proof (Qfloor_le v).
    change (this 1) with (inject_Z 1). lra.
  - rewrite this_plus, inject_Z_plus. pose proof (Qlt_floor v) as H.
    change (this 1) with (inject_Z 1). lra.
Qed.

(** ** Race controller: car lookup *)

(** C10: [get_car] never raises; it returns the car stored at [index]
    when [0 <= index < len(cars)] and Python's [None] for every other
    index, negative ones included. *)
Theorem get_car_spec (r : RaceController) (index : Z) :
  ((0 <= index < Z.of_nat (length (cars r)))%Z ->
     exists c, cars r !! Z.to_nat index = Some c /\
               get_car r index = Some (Some c)) /\
  (~ (0 <= index < Z.of_nat (length (cars r)))%Z ->
     get_car r index = Some None).
Proof.
  unfold get_car, py_index. split; intros H.
  - destruct (lookup_lt_is_Some_2 (cars r) (Z.to_nat index)) as [c Hc];
      [lia|].
    exists c. split; [exact Hc|].
    rewrite decide_True by exact H. rewrite decide_True by lia.
    rewrite Hc. reflexivity.
  - rewrite decide_False by exact H. reflexivity.
Qed.

(** ** Car: the pit stop *)

(** C7: for a car that is [IN_PIT], [update] only subtracts
    [dt * speed_multiplier] from the pit timer; when the new timer is
    [<= 0] the stop completes: tire wear and fuel become 100, damage drops
    by 20 with floor 0, the target pit lap is cleared, the count of pit
    stops grows by one and the state becomes [PIT_EXIT].  Every other
    field keeps its value. *)
Theorem in_pit_update (dt m : Qc) (tr : Track) (c : Car) :
  state c = IN_PIT ->
  car_update dt tr m c =
    Some
      (let timer := pit_stop_timer c - dt * m in
       if decide (timer <= 0) then
         {| team := team c; start_position := start_position c;
            position := position c; _track_t := _track_t c;
            state := PIT_EXIT;
            telemetry :=
              {| speed := speed (telemetry c); rpm := rpm (telemetry c);
                 gear := gear (telemetry c);
                 throttle := throttle (telemetry c);
                 brake := brake (telemetry c); drs := drs (telemetry c);
                 ers_deployment := ers_deployment (telemetry c);
                 tire_wear := zq 100; fuel_remaining := zq 100;
                 engine_temp := engine_temp (telemetry c);
                 brake_temp := brake_temp (telemetry c);
                 g_force_lat := g_force_lat (telemetry c);
                 g_force_long := g_force_long (telemetry c) |};
            timing := timing c;
            pit_stops_made := pit_stops_made c + 1;
            pit_stop_timer := timer; target_pit_lap := None;
            _current_speed := _current_speed c;
            _target_speed := _target_speed c;
            _base_performance := _base_performance c;
            prim_path := prim_path c;
            damage := py_max 0 (damage c - zq 20) |}
       else
         {| team := team c; start_position := start_position c;
            position := position c; _track_t := _track_t c;
            state := IN_PIT; telemetry := telemetry c; timing := timing c;
            pit_stops_made := pit_stops_made c;
            pit_stop_timer := timer; target_pit_lap := target_pit_lap c;
            _current_speed := _current_speed c;
            _target_speed := _target_speed c;
            _base_performance := _base_performance c;
            prim_path := prim_path c; damage := damage c |}).
Proof.
  intros Hst. unfold car_update.
  rewrite decide_False by (rewrite Hst; intros [?|?]; discriminate).
  rewrite decide_False by (rewrite Hst; discriminate).
  rewrite decide_True by exact Hst.
  unfold _update_pit_stop. cbn [pit_stop_timer set_pit_stop_timer].
  case_decide; [reflexivity|].
  unfold set_pit_stop_timer. rewrite Hst. reflexivity.
Qed.

(** ** Car: one tick *)

Lemma _track_t_update_speed (dt : Qc) (c : Car) :
  _track_t (_update_speed dt c) = _track_t c.
Proof. unfold _update_speed. case_decide; reflexivity. Qed.

Lemma car_update_moves (dt : Qc) (tr : Track) (m : Qc) (c : Car) :
  moves (state c) ->
  car_update dt tr m c =
    b ← get_bank_at tr (track_t c); Some (racing_tick b dt tr m c).
Proof.
  intros Hm. unfold car_update.
  rewrite decide_False by (destruct Hm as [H|[H|H]]; rewrite H; intros [?|?]; discriminate).
  rewrite decide_False by (destruct Hm as [H|[H|H]]; rewrite H; discriminate).
  rewrite decide_False by (destruct Hm as [H|[H|H]]; rewrite H; discriminate).
  unfold _update_target_speed.
  destruct (get_bank_at tr (track_t c)) as [b|] eqn:Hb; [|reflexivity].
  cbn [mbind option_bind]. unfold _update_telemetry.
  set (c2 := _update_speed dt _).
  assert (get_bank_at tr (track_t c2) = Some b) as Hb2.
  { unfold track_t, c2. rewrite _track_t_update_speed. exact Hb. }
  rewrite Hb2. cbn [mbind option_bind].
  unfold racing_tick, telemetry_for, target_for, movement_of. fold c2.
  reflexivity.
Qed.

Lemma car_update_still (dt : Qc) (tr : Track) (m : Qc) (c : Car) :
  state c = GRID \/ state c = DNF \/ state c = FINISHED ->
  car_update dt tr m c = Some c.
Proof.
  intros H. unfold car_update.
  destruct H as [H|[H|H]]; rewrite H; reflexivity.
Qed.

Lemma car_update_in_pit (dt : Qc) (tr : Track) (m : Qc) (c : Car) :
  state c = IN_PIT ->
  car_update dt tr m c = Some (_update_pit_stop dt m c).
Proof. intros H. unfold car_update. rewrite H. reflexivity. Qed.

Lemma state_cases (s : CarState) :
  (s = GRID \/ s = DNF \/ s = FINISHED) \/ s = IN_PIT \/ moves s.
Proof. unfold moves. destruct s; auto. Qed.

(** *** What one operation does to position, damage and state *)

Lemma track_t_setter_damage (v : Qc) (c : Car) :
  damage (track_t_setter v c) = damage c.
Proof. unfold track_t_setter. destruct (_ && _); reflexivity. Qed.

Lemma track_t_setter_state (v : Qc) (c : Car) :
  state (track_t_setter v c) = state c.
Proof. unfold track_t_setter. destruct (_ && _); reflexivity. Qed.

Lemma _update_speed_damage (dt : Qc) (c : Car) :
  damage (_update_speed dt c) = damage c.
Proof. unfold _update_speed. case_decide; reflexivity. Qed.

Lemma _update_speed_state (dt : Qc) (c : Car) :
  state (_update_speed dt c) = state c.
Proof. unfold _update_speed. case_decide; reflexivity. Qed.

Lemma racing_tick_damage (b dt : Qc) (tr : Track) (m : Qc) (c : Car) :
  damage (racing_tick b dt tr m c) = damage c.
Proof.
  unfold racing_tick. destruct (_should_pit _ _);
    cbn [_enter_pit set_state set_timing damage];
    rewrite track_t_setter_damage; unfold telemetry_for;
    cbn [set_telemetry damage]; rewrite _update_speed_damage; reflexivity.
Qed.

Lemma racing_tick_state (b dt : Qc) (tr : Track) (m : Qc) (c : Car) :
  state (racing_tick b dt tr m c) = state c \/
  state (racing_tick b dt tr m c) = PIT_ENTRY.
Proof.
  unfold racing_tick. destruct (_should_pit _ _);
    cbn [_enter_pit set_state set_timing state]; [right; reflexivity|].
  left. rewrite track_t_setter_state. unfold telemetry_for.
  cbn [set_telemetry state]. rewrite _update_speed_state. reflexivity.
Qed.

Lemma _update_pit_stop_damage (dt m : Qc) (c : Car) :
  damage (_update_pit_stop dt m c) = damage c \/
  damage (_update_pit_stop dt m c) = py_max 0 (damage c - zq 20).
Proof. unfold _update_pit_stop. case_decide; [right|left]; reflexivity. Qed.

Lemma py_index_mod {A} (l : list A) (i : Z) :
  l <> [] -> is_Some (py_index l (i mod Z.of_nat (length l))%Z).
Proof.
  intros Hl. unfold py_index.
  assert (0 < Z.of_nat (length l))%Z by (destruct l; [done|simpl; lia]).
  pose proof (Z.mod_pos_bound i (Z.of_nat (length l))).
  rewrite decide_True by lia. apply lookup_lt_is_Some_2. lia.
Qed.

Lemma in_pit_update_witness :
  state (start_pit_stop (zq 3) (sample_car "A" 1)) = IN_PIT /\
  exists c',
    car_update (zq 4) sample_track 1 (start_pit_stop (zq 3) (sample_car "A" 1))
      = Some c' /\
    state c' = PIT_EXIT /\ pit_stops_made c' = 1%Z /\
    target_pit_lap c' = None /\ tire_wear (telemetry c') = zq 100.
Proof.
  split; [reflexivity|].
  eexists. split.
  - apply (in_pit_update (zq 4) 1 sample_track
             (start_pit_stop (zq 3) (sample_car "A" 1))).
    reflexivity.
  - repeat split.
Defined.

Lemma get_car_spec_witness :
  get_car (sample_race [sample_car "A" 1; sample_car "B" 2] 5) 1
    = Some (Some (sample_car "B" 2)) /\
  get_car (sample_race [sample_car "A" 1; sample_car "B" 2] 5) (-1)
    = Some None /\
  get_car (sample_race [sample_car "A" 1; sample_car "B" 2] 5) 2
    = Some None.
Proof.
  pose proof (get_car_spec
                (sample_race [sample_car "A" 1; sample_car "B" 2] 5)) as H.
  split; [|split].
  - destruct (proj1 (H 1%Z)) as (c & Hc & ->); [simpl; lia|].
    simpl in Hc. congruence.
  - apply (proj2 (H (-1)%Z)). simpl. lia.
  - apply (proj2 (H 2%Z)). simpl. lia.
Defined.

(** ** Car: damage and retirement *)

Lemma run_op_damage_le (tr : Track) (o : CarOp) (c c' : Car) :
  run_op tr o c = Some c' -> damage c <= zq 100 -> damage c' <= zq 100.
Proof.
  destruct o; simpl; intros Hu Hd.
  - destruct (state_cases (state c)) as [H|[H|H]].
    + rewrite car_update_still in Hu by exact H. congruence.
    + rewrite car_update_in_pit in Hu by exact H. apply (inj Some) in Hu.
      subst c'. destruct (_update_pit_stop_damage dt speed_multiplier0 c) as [->| ->];
        [exact Hd|].
      apply py_max_lub; qc_lra.
    + rewrite car_update_moves in Hu by exact H.
      destruct (get_bank_at tr (track_t c)) as [b|]; [|discriminate].
      cbn [mbind option_bind] in Hu. apply (inj Some) in Hu. subst c'.
      rewrite racing_tick_damage. exact Hd.
  - apply (inj Some) in Hu. subst c'. unfold apply_damage.
    case_decide; cbn [damage set_damage set_state]; apply py_min_le_l.
  - apply (inj Some) in Hu. subst c'. exact Hd.
  - apply (inj Some) in Hu. subst c'. exact Hd.
  - apply (inj Some) in Hu. subst c'. exact Hd.
Qed.

Lemma run_op_damage_ge (tr : Track) (o : CarOp) (c c' : Car) :
  run_op tr o c = Some c' -> nonneg_amount o ->
  0 <= damage c -> 0 <= damage c'.
Proof.
  destruct o; simpl; intros Hu Ha Hd.
  - destruct (state_cases (state c)) as [H|[H|H]].
    + rewrite car_update_still in Hu by exact H. congruence.
    + rewrite car_update_in_pit in Hu by exact H. apply (inj Some) in Hu.
      subst c'. destruct (_update_pit_stop_damage dt speed_multiplier0 c) as [->| ->];
        [exact Hd|].
      apply py_max_ge_l.
    + rewrite car_update_moves in Hu by exact H.
      destruct (get_bank_at tr (track_t c)) as [b|]; [|discriminate].
      cbn [mbind option_bind] in Hu. apply (inj Some) in Hu. subst c'.
      rewrite racing_tick_damage. exact Hd.
  - apply (inj Some) in Hu. subst c'. unfold apply_damage.
    case_decide; cbn [damage set_damage set_state];
      (apply py_min_glb; qc_lra).
  - apply (inj Some) in Hu. subst c'. exact Hd.
  - apply (inj Some) in Hu. subst c'. exact Hd.
  - apply (inj Some) in Hu. subst c'. exact Hd.
Qed.

Lemma run_op_keeps_dnf (tr : Track) (o : CarOp) (c c' : Car) :
  run_op tr o c = Some c' -> update_or_damage o ->
  state c = DNF -> state c' = DNF.
Proof.
  destruct o; simpl; intros Hu Ho Hs; try contradiction.
  - rewrite car_update_still in Hu by auto. congruence.
  - apply (inj Some) in Hu. subst c'. unfold apply_damage.
    case_decide; [reflexivity | exact Hs].
Qed.

Lemma apply_damage_forces_dnf (a : Qc) (c : Car) :
  zq 100 <= damage c + a ->
  damage (apply_damage a c) = zq 100 /\ state (apply_damage a c) = DNF.
Proof.
  intros H. unfold apply_damage. cbn [damage set_damage].
  assert (py_min (zq 100) (damage c + a) = zq 100) as ->.
  { unfold py_min. case_decide; [qc_lra | reflexivity]. }
  rewrite decide_True by apply Qcle_refl. split; reflexivity.
Qed.

(** C4, as the code has it: for every car whose damage is in [0,100] and
    every sequence of public operations, damage never exceeds 100, and
    never drops below 0 when no negative amount is passed to
    [apply_damage]; [apply_damage] caps damage at 100 and forces DNF once
    damage reaches 100; [update] and [apply_damage] never move a car out
    of DNF.  ([start_race], [exit_pit] and [start_pit_stop] assign the
    state without looking at it.) *)
Theorem damage_capped_dnf_kept (tr : Track) (os : list CarOp) (c c' : Car) :
  run_ops tr os c = Some c' ->
  0 <= damage c -> damage c <= zq 100 ->
  damage c' <= zq 100 /\
  (Forall nonneg_amount os -> 0 <= damage c') /\
  (Forall update_or_damage os -> state c = DNF -> state c' = DNF) /\
  (forall a, zq 100 <= damage c + a ->
     damage (apply_damage a c) = zq 100 /\ state (apply_damage a c) = DNF).
Proof.
  intros Hrun Hlo Hhi.
  split; [|split; [|split]]; [| | |intros a; apply apply_damage_forces_dnf].
  - clear Hlo. revert c Hrun Hhi.
    induction os as [|o os IH]; intros c Hrun Hhi; simpl in Hrun.
    + congruence.
    + destruct (run_op tr o c) as [c1|] eqn:Ho; [|discriminate].
      eapply IH; [exact Hrun|]. eapply run_op_damage_le; eassumption.
  - clear Hhi. intros Hall. revert c Hrun Hlo.
    induction Hall as [|o os Ho Hall IH]; intros c Hrun Hlo; simpl in Hrun.
    + congruence.
    + destruct (run_op tr o c) as [c1|] eqn:Hop; [|discriminate].
      eapply IH; [exact Hrun|]. eapply run_op_damage_ge; eassumption.
  - clear Hlo Hhi. intros Hall. revert c Hrun.
    induction Hall as [|o os Ho Hall IH]; intros c Hrun Hs; simpl in Hrun.
    + congruence.
    + destruct (run_op tr o c) as [c1|] eqn:Hop; [|discriminate].
      eapply IH; [exact Hrun|]. eapply run_op_keeps_dnf; eassumption.
Qed.

Lemma damage_capped_dnf_kept_witness :
  exists c',
    run_ops sample_track
      [OpApplyDamage (zq 60); OpApplyDamage (zq 70); OpUpdate 1 1;
       OpApplyDamage (zq 5)]
      (sample_car "A" 1) = Some c' /\
    damage c' <= zq 100 /\ 0 <= damage c'.
Proof.
  assert (exists c', run_ops sample_track
    [OpApplyDamage (zq 60); OpApplyDamage (zq 70); OpUpdate 1 1;
     OpApplyDamage (zq 5)] (sample_car "A" 1) = Some c') as [c' Hrun]
    by (eexists; vm_compute; reflexivity).
  exists c'. split; [exact Hrun|].
  destruct (damage_capped_dnf_kept sample_track _ _ c' Hrun)
    as (Hle & Hge & _); [discriminate | discriminate |].
  split; [exact Hle|]. apply Hge.
  repeat constructor; discriminate.
Defined.

(** C4, counterexample: a car retired by damage leaves DNF through the
    public [exit_pit]; and a negative amount takes damage below 0. *)
Lemma dnf_left_by_exit_pit :
  state (apply_damage (zq 100) (sample_car "A" 1)) = DNF /\
  ~ dnf_permanent sample_track (apply_damage (zq 100) (sample_car "A" 1))
      [OpExitPit] /\
  damage (apply_damage (zq (-5)) (sample_car "A" 1)) < 0.
Proof.
  split; [reflexivity|]. split; [|reflexivity].
  intros H. specialize (H _ eq_refl eq_refl). discriminate H.
Qed.

(** ** Race controller: standings *)

Lemma insert_sorted_perm {A} (ltb : A -> A -> bool) (a : A) (l : list A) :
  insert_sorted ltb a l ≡ₚ a :: l.
Proof.
  induction l as [|b l IH]; simpl; [reflexivity|].
  destruct (ltb b a); [|reflexivity].
  rewrite IH. apply Permutation_swap.
Qed.

Lemma py_sorted_perm {A} (ltb : A -> A -> bool) (l : list A) :
  py_sorted ltb l ≡ₚ l.
Proof.
  induction l as [|a l IH]; simpl; [reflexivity|].
  rewrite insert_sorted_perm, IH. reflexivity.
Qed.

Lemma sorted_cars_perm (cs : list Car) :
  sorted_cars cs ≡ₚ seq 0 (length cs).
Proof. apply py_sorted_perm. Qed.

Lemma sorted_cars_NoDup (cs : list Car) : NoDup (sorted_cars cs).
Proof. rewrite sorted_cars_perm. apply NoDup_seq. Qed.

Lemma sorted_cars_lt (cs : list Car) (j : nat) :
  j ∈ sorted_cars cs -> (j < length cs)%nat.
Proof. rewrite sorted_cars_perm, elem_of_seq. lia. Qed.

Lemma sorted_cars_nonempty (cs : list Car) :
  cs <> [] -> sorted_cars cs <> [].
Proof.
  intros Hcs Ho. pose proof (sorted_cars_perm cs) as Hp.
  rewrite Ho in Hp. apply Permutation_nil_l in Hp.
  destruct cs; [done|discriminate].
Qed.

Lemma assign_positions_length (order : list nat) (i : Z) (cs : list Car) :
  length (assign_positions i order cs) = length cs.
Proof.
  revert i cs. induction order as [|j order IH]; intros i cs; simpl;
    [reflexivity|].
  rewrite IH, length_alter. reflexivity.
Qed.

Lemma assign_positions_other (order : list nat) (i : Z) (cs : list Car)
    (k : nat) :
  k ∉ order -> assign_positions i order cs !! k = cs !! k.
Proof.
  revert i cs. induction order as [|j order IH]; intros i cs Hk; simpl;
    [reflexivity|].
  rewrite not_elem_of_cons in Hk. destruct Hk as [Hkj Hk].
  rewrite IH by exact Hk. apply list_lookup_alter_ne. congruence.
Qed.

(** The car at place [p] of the order receives rank [i + p + 1], and
    nothing else of it changes. *)
Lemma assign_positions_at (order : list nat) (i : Z) (cs : list Car)
    (p j : nat) (c : Car) :
  NoDup order -> order !! p = Some j -> cs !! j = Some c ->
  assign_positions i order cs !! j
    = Some (set_position (i + Z.of_nat p + 1)%Z c).
Proof.
  revert i cs p. induction order as [|j0 order IH]; intros i cs p Hnd Hp Hc;
    [discriminate|].
  pose proof (NoDup_cons_1_1 _ _ Hnd) as Hj0.
  apply NoDup_cons_1_2 in Hnd. simpl. destruct p as [|p]; simpl in Hp.
  - injection Hp as ->. rewrite assign_positions_other by exact Hj0.
    rewrite list_lookup_alter, decide_True by reflexivity. rewrite Hc. simpl. do 2 f_equal. lia.
  - assert (j0 <> j) by (intros ->; apply Hj0; eapply list_elem_of_lookup_2; eassumption).
    erewrite IH; [| exact Hnd | exact Hp |].
    + do 2 f_equal. lia.
    + rewrite list_lookup_alter_ne by assumption. exact Hc.
Qed.

(** *** The gap loop *)

Lemma gap_behind_ahead_irrel (a a' c : Car) :
  track_t a = track_t a' ->
  current_lap (timing a) = current_lap (timing a') ->
  gap_behind a c = gap_behind a' c.
Proof. intros E1 E2. unfold gap_behind. rewrite E1, E2. reflexivity. Qed.

Lemma gap_behind_gaps (a c : Car) :
  gap_to_ahead (timing (gap_behind a c)) = expected_gap a c /\
  gap_to_leader (timing (gap_behind a c)) = expected_gap a c.
Proof.
  unfold gap_behind, expected_gap. repeat case_decide; split; reflexivity.
Qed.

Lemma gap_behind_view (a c : Car) :
  track_t (gap_behind a c) = track_t c /\
  current_lap (timing (gap_behind a c)) = current_lap (timing c) /\
  state (gap_behind a c) = state c /\
  position (gap_behind a c) = position c.
Proof. unfold gap_behind. case_decide; repeat split. Qed.

Lemma expected_gap_ext (a a' c c' : Car) :
  track_t a = track_t a' ->
  current_lap (timing a) = current_lap (timing a') ->
  track_t c = track_t c' ->
  current_lap (timing c) = current_lap (timing c') ->
  state c = state c' ->
  expected_gap a c = expected_gap a' c'.
Proof.
  intros E1 E2 E3 E4 E5. unfold expected_gap.
  rewrite E1, E2, E3, E4, E5. reflexivity.
Qed.

Lemma gaps_loop_length (rest : list nat) (prev : nat) (cs : list Car) :
  length (gaps_loop prev rest cs) = length cs.
Proof.
  revert prev cs. induction rest as [|j rest IH]; intros prev cs; simpl;
    [reflexivity|].
  destruct (cs !! prev); rewrite IH; [apply length_alter | reflexivity].
Qed.

Lemma gaps_loop_other (rest : list nat) (prev : nat) (cs : list Car)
    (k : nat) :
  k ∉ rest -> gaps_loop prev rest cs !! k = cs !! k.
Proof.
  revert prev cs. induction rest as [|j rest IH]; intros prev cs Hk; simpl;
    [reflexivity|].
  rewrite not_elem_of_cons in Hk. destruct Hk as [Hkj Hk].
  destruct (cs !! prev); rewrite IH by exact Hk; [|reflexivity].
  apply list_lookup_alter_ne. congruence.
Qed.

(** Each car after the first is rewritten once, by [gap_behind] applied to
    the car just before it in the order. *)
Lemma gaps_loop_at (rest : list nat) (prev : nat) (cs : list Car)
    (i a j : nat) (a0 c0 : Car) :
  NoDup (prev :: rest) ->
  (prev :: rest) !! i = Some a -> rest !! i = Some j ->
  cs !! a = Some a0 -> cs !! j = Some c0 ->
  gaps_loop prev rest cs !! j = Some (gap_behind a0 c0).
Proof.
  revert prev cs i a a0.
  induction rest as [|j0 rest IH]; intros prev cs i a a0 Hnd Ha Hj Ha0 Hc0;
    [discriminate|].
  pose proof (NoDup_cons_1_2 _ _ Hnd) as Hnd'.
  pose proof (NoDup_cons_1_1 _ _ Hnd') as Hj0.
  simpl. destruct i as [|i]; simpl in Ha, Hj.
  - injection Ha as ->. injection Hj as ->. rewrite Ha0.
    rewrite gaps_loop_other by exact Hj0.
    rewrite list_lookup_alter, decide_True by reflexivity.
    rewrite Hc0. reflexivity.
  - assert (j0 <> j) as Hne
      by (intros ->; apply Hj0; eapply list_elem_of_lookup_2; eassumption).
    destruct (cs !! prev) as [ahead|] eqn:Hahead;
      [|exact (IH j0 cs i a a0 Hnd' Ha Hj Ha0 Hc0)].
    destruct i as [|i]; simpl in Ha.
    + injection Ha as ->.
      assert (cs !! j = Some c0) as Hc0' by exact Hc0.
      rewrite (IH a (alter (gap_behind ahead) a cs) 0%nat a (gap_behind ahead a0));
        [ | exact Hnd' | reflexivity | exact Hj | | ].
      * f_equal. apply gap_behind_ahead_irrel; apply gap_behind_view.
      * rewrite list_lookup_alter, decide_True by reflexivity.
        rewrite Ha0. reflexivity.
      * rewrite list_lookup_alter_ne by exact Hne. exact Hc0.
    + assert (j0 <> a) as Hne'
        by (intros ->; apply Hj0; eapply list_elem_of_lookup_2; eassumption).
      apply (IH j0 (alter (gap_behind ahead) j0 cs) (S i) a a0);
        [ exact Hnd' | exact Ha | exact Hj | | ].
      * rewrite list_lookup_alter_ne by exact Hne'. exact Ha0.
      * rewrite list_lookup_alter_ne by exact Hne. exact Hc0.
Qed.

(** The cars after the ranks and the leader's gap are written: the car at
    place [p] has rank [p + 1] and the fields the gap loop reads are as
    before. *)
Lemma ranked_lookup (cs : list Car) (leader : nat) (rest : list nat)
    (p j : nat) (c : Car) :
  NoDup (leader :: rest) ->
  (leader :: rest) !! p = Some j -> cs !! j = Some c ->
  exists c2,
    alter set_leader_gap leader (assign_positions 0 (leader :: rest) cs) !! j
      = Some c2 /\
    position c2 = (Z.of_nat p + 1)%Z /\
    track_t c2 = track_t c /\
    current_lap (timing c2) = current_lap (timing c) /\
    state c2 = state c /\
    (j = leader -> gap_to_leader (timing c2) = Fin 0).
Proof.
  intros Hnd Hp Hc.
  pose proof (assign_positions_at _ 0 cs p j c Hnd Hp Hc) as H1.
  destruct (decide (leader = j)) as [->|Hne].
  - eexists. split.
    + rewrite list_lookup_alter, decide_True by reflexivity.
      rewrite H1. reflexivity.
    + repeat split; simpl; lia.
  - eexists. split.
    + rewrite list_lookup_alter_ne by exact Hne. exact H1.
    + repeat split; try (simpl; lia); congruence.
Qed.

(** ** Race controller: gaps *)

(** C8, as the code has it: after the standings are recomputed, the first
    car of the order has rank 1 and gap-to-leader exactly 0 (also when it
    is DNF); every later car has the rank of its place and, if it is DNF,
    unbounded gaps, otherwise a gap-to-ahead that is the wrapped
    track-position difference to the car immediately ahead times 90 when
    both are on the same lap and the lap difference times 90 when not;
    its gap-to-leader is that same value. *)
Theorem standings_gaps (r : RaceController) :
  cars r <> [] ->
  exists r',
    _update_positions r = Some r' /\
    (forall j c,
       sorted_cars (cars r) !! 0%nat = Some j -> cars r !! j = Some c ->
       exists c', cars r' !! j = Some c' /\ position c' = 1%Z /\
                  gap_to_leader (timing c') = Fin 0) /\
    (forall q a j ahead c,
       sorted_cars (cars r) !! q = Some a ->
       sorted_cars (cars r) !! S q = Some j ->
       cars r !! a = Some ahead -> cars r !! j = Some c ->
       exists c', cars r' !! j = Some c' /\
                  position c' = (Z.of_nat q + 2)%Z /\
                  gap_to_ahead (timing c') = expected_gap ahead c /\
                  gap_to_leader (timing c') = expected_gap ahead c).
Proof.
  intros Hcs. unfold _update_positions.
  pose proof (sorted_cars_NoDup (cars r)) as Hnd.
  pose proof (sorted_cars_lt (cars r)) as Hlt.
  destruct (sorted_cars (cars r)) as [|leader rest] eqn:Ho;
    [exfalso; revert Ho; apply sorted_cars_nonempty, Hcs|].
  assert (is_Some (cars r !! leader)) as [cl Hcl]
    by (apply lookup_lt_is_Some, Hlt; left).
  destruct (ranked_lookup (cars r) leader rest 0 leader cl Hnd eq_refl Hcl)
    as (l2 & Hl2 & Hpos & _ & _ & _ & Hgap).
  pose proof (NoDup_cons_1_1 _ _ Hnd) as Hlead.
  rewrite (gaps_loop_other rest leader _ leader Hlead), Hl2.
  cbn [mbind option_bind]. eexists. split; [reflexivity|].
  cbn [cars set_race_current_lap set_cars]. split.
  - intros j c Hj Hc. injection Hj as <-.
    rewrite (gaps_loop_other rest leader _ leader Hlead), Hl2.
    exists l2. auto.
  - intros q a j ahead c Ha Hj Hahead Hc.
    destruct (ranked_lookup (cars r) leader rest q a ahead Hnd Ha Hahead)
      as (a2 & Ha2 & _ & Hat & Hal & _ & _).
    destruct (ranked_lookup (cars r) leader rest (S q) j c Hnd Hj Hc)
      as (c2 & Hc2 & Hcp & Hct & Hcl2 & Hcst & _).
    rewrite (gaps_loop_at rest leader _ q a j a2 c2 Hnd Ha Hj Ha2 Hc2).
    eexists. split; [reflexivity|].
    destruct (gap_behind_view a2 c2) as (_ & _ & _ & Hp2).
    destruct (gap_behind_gaps a2 c2) as [G1 G2].
    rewrite Hp2, G1, G2, Hcp.
    rewrite (expected_gap_ext a2 ahead c2 c Hat Hal Hct Hcl2 Hcst).
    repeat split. lia.
Qed.

Lemma standings_gaps_witness :
  exists r',
    _update_positions two_racing = Some r' /\
    (forall j c,
       sorted_cars (cars two_racing) !! 0%nat = Some j ->
       cars two_racing !! j = Some c ->
       exists c', cars r' !! j = Some c' /\ position c' = 1%Z /\
                  gap_to_leader (timing c') = Fin 0) /\
    (forall q a j ahead c,
       sorted_cars (cars two_racing) !! q = Some a ->
       sorted_cars (cars two_racing) !! S q = Some j ->
       cars two_racing !! a = Some ahead -> cars two_racing !! j = Some c ->
       exists c', cars r' !! j = Some c' /\
                  position c' = (Z.of_nat q + 2)%Z /\
                  gap_to_ahead (timing c') = expected_gap ahead c /\
                  gap_to_leader (timing c') = expected_gap ahead c).
Proof. apply (standings_gaps two_racing). discriminate. Defined.

(** The rule at work: B at 0.5 leads A at 0.25 on the same lap, and A's
    gap is a quarter of a lap, 22.5 seconds. *)
Lemma two_racing_gaps :
  sorted_cars (cars two_racing) = [1; 0]%nat /\
  exists a b g,
    cars two_racing = [a; b] /\ expected_gap b a = Fin g /\ g = dec 45 2.
Proof.
  split; [reflexivity|]. do 3 eexists. split; [reflexivity|].
  split; [vm_compute; reflexivity|]. apply Qc_is_canon. reflexivity.
Qed.

(** C8, counterexample: when every car is DNF the first car of the order
    is a DNF car whose gap-to-leader is 0, not unbounded. *)
Lemma dnf_leader_gap_zero : ~ dnf_gaps_unbounded all_retired.
Proof.
  intros H.
  assert (exists r' c',
            _update_positions all_retired = Some r' /\
            cars r' !! 0%nat = Some c' /\ state c' = DNF /\
            gap_to_leader (timing c') = Fin 0)
    as (r' & c' & H1 & H2 & H3 & H4)
    by (do 2 eexists; split; [vm_compute; reflexivity|]; repeat split).
  destruct (H r' 0%nat c' H1 H2 H3) as [G _].
  rewrite H4 in G. discriminate G.
Qed.

(** ** Race controller: the order of the standings *)

(** C1, at the failing input: a DNF car and a RACING car on the same lap.
    The key of the DNF car is [(0, -1000, False)], below the key
    [(0, -0.5, True)] of the racing car, so the DNF car is sorted first
    and gets rank 1, the racing car rank 2. *)
Theorem standings_dnf_first :
  (state <$> cars racing_and_retired) = [RACING; DNF] /\
  sorted_cars (cars racing_and_retired) = [1; 0]%nat /\
  (fmap (M := list) position <$>
     (cars <$> _update_positions racing_and_retired)) = Some [2; 1]%Z.
Proof. repeat split; vm_compute; reflexivity. Qed.

(** ** Race controller: collisions *)

(** C9, at the failing input: three racing cars side by side, the first
    at damage 99, every draw equal to 3.  The pair (A, B) retires A; the
    inner loop goes on with A as [car1] and the pair (A, C) is hit although
    A is DNF by then: C ends with 6, 3 from the DNF car and 3 from B.
    With B the car at damage 99 instead, the pair (A, B) retires B, whose
    state is tested afresh: the pair (B, C), racing and side by side when
    the scan began, is never hit, and C ends with 3 after two draws. *)
Theorem collision_with_retired_car :
  let st0 := (cars three_abreast, 0%nat) in
  let st1 := collide_pair sample_rng 0 1 st0 in
  let st2 := collide_pair sample_rng 0 2 st1 in
  (state <$> st1.1) = [DNF; RACING; RACING] /\
  ((fun c => bool_decide (damage c = 0)) <$> st1.1) = [false; false; true] /\
  ((fun c => bool_decide (damage c = zq 3)) <$> st2.1) = [false; true; true] /\
  (let r' := _check_collisions sample_rng three_abreast in
   (state <$> cars r') = [DNF; RACING; RACING] /\
   ((fun c => bool_decide (damage c = zq 6)) <$> cars r')
     = [false; true; true] /\
   draws r' = 3%nat) /\
  (let r' := _check_collisions sample_rng three_abreast_mid in
   (state <$> cars three_abreast_mid) = [RACING; RACING; RACING] /\
   (state <$> cars r') = [RACING; DNF; RACING] /\
   ((fun c => bool_decide (damage c = zq 3)) <$> cars r')
     = [false; false; true] /\
   draws r' = 2%nat).
Proof. repeat split; vm_compute; reflexivity. Qed.

(** ** Race controller: what the later phases of a tick leave alone *)

Section frame.
Context {V : Type} (f : Car -> V).

Lemma fmap_alter_frame (g : Car -> Car) (i : nat) (l : list Car) :
  (forall c, f (g c) = f c) -> f <$> alter g i l = f <$> l.
Proof.
  intros Hg. revert i. induction l as [|c l IH]; intros i; [reflexivity|].
  destruct i as [|i]; simpl; [rewrite Hg; reflexivity|].
  f_equal. apply IH.
Qed.

Hypothesis f_position : forall p c, f (set_position p c) = f c.
Hypothesis f_timing :
  forall tm c,
    current_lap tm = current_lap (timing c) ->
    lap_time tm = lap_time (timing c) ->
    last_lap_time tm = last_lap_time (timing c) ->
    best_lap_time tm = best_lap_time (timing c) ->
    f (set_timing tm c) = f c.
Hypothesis f_damage : forall d c, f (set_damage d c) = f c.
Hypothesis f_state : forall s c, f (set_state s c) = f c.

Lemma f_gap_behind (a c : Car) : f (gap_behind a c) = f c.
Proof. unfold gap_behind. case_decide; apply f_timing; reflexivity. Qed.

Lemma f_apply_damage (d : Qc) (c : Car) : f (apply_damage d c) = f c.
Proof.
  unfold apply_damage. case_decide; rewrite ?f_state; apply f_damage.
Qed.

Lemma assign_positions_frame (order : list nat) (i : Z) (cs : list Car) :
  f <$> assign_positions i order cs = f <$> cs.
Proof.
  revert i cs. induction order as [|j order IH]; intros i cs; simpl;
    [reflexivity|].
  rewrite IH. apply fmap_alter_frame. intros c. apply f_position.
Qed.

Lemma gaps_loop_frame (rest : list nat) (prev : nat) (cs : list Car) :
  f <$> gaps_loop prev rest cs = f <$> cs.
Proof.
  revert prev cs. induction rest as [|j rest IH]; intros prev cs; simpl;
    [reflexivity|].
  destruct (cs !! prev) as [ahead|]; rewrite IH; [|reflexivity].
  apply fmap_alter_frame. intros c. apply f_gap_behind.
Qed.

Lemma _update_positions_frame (r r' : RaceController) :
  _update_positions r = Some r' -> f <$> cars r' = f <$> cars r.
Proof.
  unfold _update_positions.
  destruct (sorted_cars (cars r)) as [|leader rest]; [discriminate|].
  destruct (_ !! leader) as [lead|]; [|discriminate].
  cbn [mbind option_bind]. intros H. apply (inj Some) in H. subst r'.
  cbn [cars set_race_current_lap set_cars].
  rewrite gaps_loop_frame, fmap_alter_frame, assign_positions_frame;
    [reflexivity|].
  intros c. apply f_timing; reflexivity.
Qed.

Lemma collide_pair_frame (rng : nat -> Qc) (i j : nat)
    (st : list Car * nat) :
  f <$> (collide_pair rng i j st).1 = f <$> st.1.
Proof.
  unfold collide_pair.
  destruct (st.1 !! i) as [car1|], (st.1 !! j) as [car2|]; try reflexivity.
  repeat case_decide; try reflexivity; cbn [fst];
    rewrite !fmap_alter_frame by (intros c; apply f_apply_damage);
    reflexivity.
Qed.

Lemma collide_from_frame (rng : nat -> Qc) (st : list Car * nat) (i : nat) :
  f <$> (collide_from rng st i).1 = f <$> st.1.
Proof.
  unfold collide_from. destruct (st.1 !! i) as [car1|]; [|reflexivity].
  case_decide; [reflexivity|].
  generalize (seq (S i) (length st.1 - S i)). intros js.
  revert st. induction js as [|j js IH]; intros st; simpl; [reflexivity|].
  rewrite IH. apply collide_pair_frame.
Qed.

Lemma _check_collisions_frame (rng : nat -> Qc) (r : RaceController) :
  f <$> cars (_check_collisions rng r) = f <$> cars r.
Proof.
  unfold _check_collisions. cbn [cars set_draws set_cars].
  change (cars r) with (cars r, draws r).1 at 3.
  generalize (seq 0 (length (cars r))). generalize (cars r, draws r).
  intros st js. revert st.
  induction js as [|j js IH]; intros st; simpl; [reflexivity|].
  rewrite IH. apply collide_from_frame.
Qed.

Lemma finish_step_frame (r : RaceController) (i : nat) :
  f <$> cars (finish_step r i) = f <$> cars r.
Proof.
  unfold finish_step. destruct (cars r !! i) as [car|]; [|reflexivity].
  destruct (_ && _); [|reflexivity].
  destruct (race_finished r); cbn [cars set_cars record_winner];
    apply fmap_alter_frame; intros c; apply f_state.
Qed.

Lemma _check_race_finish_frame (r : RaceController) :
  f <$> cars (_check_race_finish r) = f <$> cars r.
Proof.
  unfold _check_race_finish. generalize (seq 0 (length (cars r))).
  intros js. revert r.
  induction js as [|j js IH]; intros r; simpl; [reflexivity|].
  rewrite IH. apply finish_step_frame.
Qed.
End frame.

(** ** A tick with [dt = 0] *)

Lemma fmod1_id (t : Qc) : in_unit t -> fmod1 t = t.
Proof.
  intros [Hlo Hhi]. unfold fmod1.
  assert (Qfloor t = 0%Z) as ->.
  { apply Qfloor_unique; unfold Qcle, Qclt in *; simpl in *; assumption. }
  apply Qc_is_canon. rewrite this_minus, this_of_Z. unfold inject_Z. lra.
Qed.

Lemma movement_of_zero (m : Qc) (c : Car) : movement_of 0 m c = 0.
Proof.
  unfold movement_of. rewrite Qcmult_0_r, Qcmult_0_l. reflexivity.
Qed.

Lemma track_t_setter_zero (c : Car) :
  in_unit (_track_t c) -> track_t_setter (track_t c + 0) c = c.
Proof.
  intros Hu. unfold track_t_setter, track_t.
  rewrite Qcplus_0_r, (fmod1_id _ Hu). cbn [_track_t set__track_t].
  assert (bool_decide (dec 95 100 < _track_t c)
          && bool_decide (_track_t c < dec 5 100) = false) as ->.
  { apply andb_false_iff.
    destruct (decide (dec 95 100 < _track_t c)) as [H|H].
    - right. apply bool_decide_eq_false. intros H'. qc_lra.
    - left. apply bool_decide_eq_false. exact H. }
  destruct c; reflexivity.
Qed.

Lemma Qcminus_0_r (a : Qc) : a - 0 = a.
Proof. ring. Qed.

Lemma _update_speed_zero (c : Car) :
  kinematics (_update_speed 0 c) = kinematics c.
Proof.
  unfold _update_speed, kinematics, track_t.
  rewrite !Qcmult_0_r. rewrite Qcplus_0_r. rewrite Qcminus_0_r.
  unfold py_min, py_max.
  case_decide as H1;
    cbn [_track_t _current_speed timing set_throttle_brake set_telemetry
         set__current_speed];
    try case_decide; try reflexivity; exfalso; qc_lra.
Qed.

Lemma kinematics_track_t (c c' : Car) :
  kinematics c = kinematics c' -> track_t c = track_t c'.
Proof. unfold kinematics. intros H. injection H. auto. Qed.

Lemma telemetry_for_kinematics (tr : Track) (b : Qc) (c : Car) :
  kinematics (telemetry_for tr b c) = kinematics c.
Proof. reflexivity. Qed.

Lemma racing_tick_zero (b : Qc) (tr : Track) (m : Qc) (c : Car) :
  in_unit (track_t c) ->
  kinematics (racing_tick b 0 tr m c) = kinematics c.
Proof.
  intros Hu. unfold racing_tick. rewrite movement_of_zero.
  set (c3 := telemetry_for tr b _).
  assert (kinematics c3 = kinematics c) as K3.
  { unfold c3. rewrite telemetry_for_kinematics, _update_speed_zero.
    reflexivity. }
  assert (in_unit (_track_t c3)) as Hu3.
  { change (in_unit (track_t c3)). rewrite (kinematics_track_t _ _ K3).
    exact Hu. }
  rewrite (track_t_setter_zero c3 Hu3). rewrite <- K3.
  rewrite Qcmult_0_l, Qcplus_0_r.
  destruct (_should_pit _ _); reflexivity.
Qed.

Lemma _update_pit_stop_kinematics (dt m : Qc) (c : Car) :
  kinematics (_update_pit_stop dt m c) = kinematics c.
Proof. unfold _update_pit_stop. case_decide; reflexivity. Qed.

Lemma car_update_zero (tr : Track) (m : Qc) (c c' : Car) :
  car_update 0 tr m c = Some c' -> in_unit (track_t c) ->
  kinematics c' = kinematics c.
Proof.
  intros Hu Hr. destruct (state_cases (state c)) as [H|[H|H]].
  - rewrite car_update_still in Hu by exact H. congruence.
  - rewrite car_update_in_pit in Hu by exact H. apply (inj Some) in Hu.
    subst c'. apply _update_pit_stop_kinematics.
  - rewrite car_update_moves in Hu by exact H.
    destruct (get_bank_at tr (track_t c)) as [b|]; [|discriminate].
    cbn [mbind option_bind] in Hu. apply (inj Some) in Hu. subst c'.
    apply racing_tick_zero, Hr.
Qed.

(** ** Race controller: the finish *)

Lemma finish_step_skip (r : RaceController) (i : nat) :
  (forall c, cars r !! i = Some c -> crosses_line (total_laps r) c = false) ->
  finish_step r i = r.
Proof.
  intros H. unfold finish_step. destruct (cars r !! i) as [c|]; [|reflexivity].
  specialize (H c eq_refl). unfold crosses_line in H. rewrite H. reflexivity.
Qed.

Lemma finish_step_frame_race (r : RaceController) (i : nat) :
  race_frame (finish_step r i) = race_frame r.
Proof.
  unfold finish_step. destruct (cars r !! i) as [c|]; [|reflexivity].
  destruct (_ && _); [|reflexivity]. destruct (race_finished r); reflexivity.
Qed.

Lemma finish_step_lookup_ne (r : RaceController) (i k : nat) :
  i <> k -> cars (finish_step r i) !! k = cars r !! k.
Proof.
  intros Hne. unfold finish_step.
  destruct (cars r !! i) as [c|]; [|reflexivity].
  destruct (_ && _); [|reflexivity].
  destruct (race_finished r); cbn [cars set_cars record_winner];
    apply list_lookup_alter_ne, Hne.
Qed.

Lemma finish_step_lookup_eq (r : RaceController) (i : nat) (c : Car) :
  cars r !! i = Some c ->
  cars (finish_step r i) !! i
    = Some (if crosses_line (total_laps r) c then set_state FINISHED c else c).
Proof.
  intros Hc. unfold finish_step, crosses_line. rewrite Hc.
  destruct (_ && _); [|exact Hc].
  destruct (race_finished r); cbn [cars set_cars record_winner];
    rewrite list_lookup_alter, decide_True by reflexivity;
    rewrite Hc; reflexivity.
Qed.

Lemma finish_step_flag (r : RaceController) (i : nat) :
  race_finished r = true ->
  race_finished (finish_step r i) = true /\
  winner (finish_step r i) = winner r.
Proof.
  intros Hf. unfold finish_step.
  destruct (cars r !! i) as [c|]; [|auto].
  destruct (_ && _); [|auto]. rewrite Hf. auto.
Qed.

Lemma finish_step_first (r : RaceController) (i : nat) (c : Car) :
  race_finished r = false -> cars r !! i = Some c ->
  crosses_line (total_laps r) c = true ->
  race_finished (finish_step r i) = true /\
  winner (finish_step r i) = Some i.
Proof.
  intros Hf Hc Hx. unfold finish_step. rewrite Hc.
  unfold crosses_line in Hx. rewrite Hx, Hf. auto.
Qed.

Lemma finish_fold_frame_race (js : list nat) (r : RaceController) :
  race_frame (foldl finish_step r js) = race_frame r.
Proof.
  revert r. induction js as [|j js IH]; intros r; simpl; [reflexivity|].
  rewrite IH. apply finish_step_frame_race.
Qed.

Lemma race_frame_total_laps (r r' : RaceController) :
  race_frame r = race_frame r' -> total_laps r = total_laps r'.
Proof. unfold race_frame. intros H. injection H. auto. Qed.

Lemma finish_fold_other (js : list nat) (r : RaceController) (k : nat) :
  k ∉ js -> cars (foldl finish_step r js) !! k = cars r !! k.
Proof.
  revert r. induction js as [|j js IH]; intros r Hk; simpl; [reflexivity|].
  rewrite not_elem_of_cons in Hk. destruct Hk as [Hkj Hk].
  rewrite IH by exact Hk. apply finish_step_lookup_ne. congruence.
Qed.

Lemma finish_fold_at (js : list nat) (r : RaceController) (k : nat) (c : Car) :
  NoDup js -> k ∈ js -> cars r !! k = Some c ->
  cars (foldl finish_step r js) !! k
    = Some (if crosses_line (total_laps r) c then set_state FINISHED c else c).
Proof.
  revert r. induction js as [|j js IH]; intros r Hnd Hk Hc; simpl.
  - apply elem_of_nil in Hk. contradiction.
  - pose proof (NoDup_cons_1_1 _ _ Hnd) as Hj.
    apply NoDup_cons_1_2 in Hnd.
    destruct (decide (j = k)) as [->|Hne].
    + rewrite finish_fold_other by exact Hj.
      apply finish_step_lookup_eq, Hc.
    + apply elem_of_cons in Hk as [->|Hk]; [congruence|].
      rewrite (IH (finish_step r j) Hnd Hk).
      * rewrite (race_frame_total_laps _ _ (finish_step_frame_race r j)).
        reflexivity.
      * rewrite finish_step_lookup_ne by exact Hne. exact Hc.
Qed.

Lemma finish_fold_flag (js : list nat) (r : RaceController) :
  race_finished r = true ->
  race_finished (foldl finish_step r js) = true /\
  winner (foldl finish_step r js) = winner r.
Proof.
  revert r. induction js as [|j js IH]; intros r Hf; simpl; [auto|].
  destruct (finish_step_flag r j Hf) as [H1 H2].
  destruct (IH _ H1) as [H3 H4]. rewrite H3, H4, H2. auto.
Qed.

Lemma finish_fold_skip (js : list nat) (r : RaceController) :
  (forall k c, k ∈ js -> cars r !! k = Some c ->
               crosses_line (total_laps r) c = false) ->
  foldl finish_step r js = r.
Proof.
  induction js as [|j js IH]; intros H; simpl; [reflexivity|].
  rewrite finish_step_skip.
  - apply IH. intros k c Hk. apply H. right. exact Hk.
  - intros c. apply H. left.
Qed.

Lemma seq_split_at (n i : nat) :
  (i < n)%nat -> seq 0 n = seq 0 i ++ i :: seq (S i) (n - S i).
Proof.
  intros Hi. replace n with (i + S (n - S i))%nat at 1 by lia.
  rewrite seq_app. reflexivity.
Qed.

(** ** Race controller: the tick *)

Lemma update_halted (rng : nat -> Qc) (dt : Qc) (r : RaceController) :
  halted r = true -> update rng dt r = Some r.
Proof. unfold update, halted. intros ->. reflexivity. Qed.

Lemma update_running (rng : nat -> Qc) (dt : Qc) (r r' : RaceController) :
  halted r = false -> update rng dt r = Some r' ->
  exists cs r2,
    mapM (car_update dt (track r) (speed_multiplier r)) (cars r) = Some cs /\
    _update_positions
      (set_cars cs (set_race_time (race_time r + dt * speed_multiplier r) r))
      = Some r2 /\
    r' = _check_race_finish
           (_update_telemetry_race (_check_collisions rng r2)).
Proof.
  unfold update, halted. intros ->.
  cbn [track speed_multiplier cars set_race_time].
  destruct (mapM _ (cars r)) as [cs|]; [|discriminate].
  cbn [mbind option_bind].
  destruct (_update_positions _) as [r2|] eqn:Hp; [|discriminate].
  cbn [mbind option_bind]. intros H. apply (inj Some) in H.
  exists cs, r2. split; [reflexivity|]. split; [exact Hp|].
  symmetry. exact H.
Qed.

Lemma _update_positions_frame_race (r r' : RaceController) :
  _update_positions r = Some r' -> race_frame r' = race_frame r.
Proof.
  unfold _update_positions.
  destruct (sorted_cars (cars r)) as [|leader rest]; [discriminate|].
  destruct (_ !! leader) as [lead|]; [|discriminate].
  cbn [mbind option_bind]. intros H. apply (inj Some) in H. subst r'.
  reflexivity.
Qed.

Lemma kinematics_set_timing (tm : LapTiming) (c : Car) :
  current_lap tm = current_lap (timing c) ->
  lap_time tm = lap_time (timing c) ->
  last_lap_time tm = last_lap_time (timing c) ->
  best_lap_time tm = best_lap_time (timing c) ->
  kinematics (set_timing tm c) = kinematics c.
Proof.
  intros E1 E2 E3 E4. unfold kinematics. cbn [timing set_timing].
  rewrite E1, E2, E3, E4. reflexivity.
Qed.

(** A tick that runs moves every car by the car's own [update]; the
    phases after it leave position, speed and lap timing alone. *)
Lemma tick_kinematics (rng : nat -> Qc) (dt : Qc) (r r' : RaceController) :
  halted r = false -> update rng dt r = Some r' ->
  exists cs,
    mapM (car_update dt (track r) (speed_multiplier r)) (cars r) = Some cs /\
    kinematics <$> cars r' = kinematics <$> cs /\
    race_time r' = race_time r + dt * speed_multiplier r.
Proof.
  intros Hh Hu.
  destruct (update_running rng dt r r' Hh Hu) as (cs & r2 & Hm & Hp & ->).
  exists cs. split; [exact Hm|]. split.
  - rewrite (_check_race_finish_frame kinematics) by reflexivity.
    cbn [_update_telemetry_race set_last_snapshot cars].
    rewrite (_check_collisions_frame kinematics) by reflexivity.
    rewrite (_update_positions_frame kinematics
               (fun _ _ => eq_refl) kinematics_set_timing _ _ Hp).
    reflexivity.
  - pose proof (finish_fold_frame_race
                  (seq 0 (length (cars (_check_collisions rng r2))))
                  (_update_telemetry_race (_check_collisions rng r2))) as H1.
    change (foldl finish_step _ _)
      with (_check_race_finish
              (_update_telemetry_race (_check_collisions rng r2))) in H1.
    pose proof (_update_positions_frame_race _ _ Hp) as H2.
    unfold race_frame in H1, H2.
    cbn [track total_laps is_running is_paused race_time speed_multiplier
         _check_collisions _update_telemetry_race set_last_snapshot
         set_draws set_cars set_race_time] in H1, H2.
    injection H1 as _ _ _ _ -> _. injection H2 as _ _ _ _ -> _. reflexivity.
Qed.

Lemma tick_moves_each (rng : nat -> Qc) (dt : Qc) (r r' : RaceController)
    (i : nat) (c : Car) :
  halted r = false -> update rng dt r = Some r' -> cars r !! i = Some c ->
  exists c1 c',
    car_update dt (track r) (speed_multiplier r) c = Some c1 /\
    cars r' !! i = Some c' /\ kinematics c' = kinematics c1.
Proof.
  intros Hh Hu Hc.
  destruct (tick_kinematics rng dt r r' Hh Hu) as (cs & Hm & Hk & _).
  apply mapM_Some_1 in Hm.
  destruct (Forall2_lookup_l _ _ _ _ _ Hm Hc) as (c1 & Hc1 & Hup).
  pose proof (f_equal (fun l => l !! i) Hk) as Hi. simpl in Hi.
  rewrite !list_lookup_fmap, Hc1 in Hi.
  destruct (cars r' !! i) as [c'|]; [|discriminate].
  simpl in Hi. apply (inj Some) in Hi. exists c1, c'. auto.
Qed.

Lemma mapM_update_zero (tr : Track) (m : Qc) (cs cs' : list Car) :
  mapM (car_update 0 tr m) cs = Some cs' ->
  Forall (fun c => in_unit (track_t c)) cs ->
  kinematics <$> cs' = kinematics <$> cs.
Proof.
  intros Hm Hall. apply mapM_Some_1 in Hm.
  induction Hm as [|c c' cs cs' Hc Hm IH]; [reflexivity|].
  pose proof (Forall_inv Hall) as Hu. apply Forall_inv_tail in Hall. simpl.
  f_equal; [exact (car_update_zero tr m c c' Hc Hu) | exact (IH Hall)].
Qed.

(** ** Race controller: the winner *)

(** C2, as the code has it: [_check_race_finish] turns every RACING car
    that has reached the total laps into FINISHED and leaves the other
    cars as they are; when no winner was recorded, the first such car in
    the car list is recorded and the finished flag set; a recorded winner
    is never overwritten.  A tick that runs moves every car by the car's
    own [update]; once the finished flag is set, [update] returns at once,
    for every [dt], and no car is updated any more. *)
Theorem winner_recorded_once (rng : nat -> Qc) (r : RaceController) :
  (forall k c,
     cars r !! k = Some c ->
     cars (_check_race_finish r) !! k
       = Some (if crosses_line (total_laps r) c
               then set_state FINISHED c else c)) /\
  (forall i c,
     race_finished r = false -> cars r !! i = Some c ->
     crosses_line (total_laps r) c = true ->
     (forall k c0, (k < i)%nat -> cars r !! k = Some c0 ->
                   crosses_line (total_laps r) c0 = false) ->
     race_finished (_check_race_finish r) = true /\
     winner (_check_race_finish r) = Some i) /\
  (race_finished r = true ->
     race_finished (_check_race_finish r) = true /\
     winner (_check_race_finish r) = winner r) /\
  (forall dt r1 i c,
     halted r = false -> update rng dt r = Some r1 ->
     cars r !! i = Some c ->
     exists c1 c',
       car_update dt (track r) (speed_multiplier r) c = Some c1 /\
       cars r1 !! i = Some c' /\ kinematics c' = kinematics c1) /\
  (forall dt, race_finished r = true -> update rng dt r = Some r).
Proof.
  split; [|split; [|split; [|split]]].
  - intros k c Hc. unfold _check_race_finish.
    apply finish_fold_at; [apply NoDup_seq | | exact Hc].
    apply elem_of_seq. apply lookup_lt_Some in Hc. lia.
  - intros i c Hf Hc Hx Hbefore. unfold _check_race_finish.
    rewrite (seq_split_at (length (cars r)) i)
      by (eapply lookup_lt_Some; exact Hc).
    rewrite foldl_app. rewrite (finish_fold_skip (seq 0 i)).
    + simpl. destruct (finish_step_first r i c Hf Hc Hx) as [H1 H2].
      destruct (finish_fold_flag (seq (S i) (length (cars r) - S i)) _ H1)
        as [H3 H4].
      rewrite H3, H4. auto.
    + intros k c0 Hk. apply Hbefore. apply elem_of_seq in Hk. lia.
  - apply finish_fold_flag.
  - intros dt r1 i c. apply tick_moves_each.
  - intros dt Hf. apply update_halted. unfold halted. rewrite Hf.
    apply orb_true_r.
Qed.

Lemma winner_recorded_once_witness :
  winner (_check_race_finish at_the_line) = Some 0%nat /\
  race_finished (_check_race_finish at_the_line) = true /\
  update sample_rng 1 (_check_race_finish at_the_line)
    = Some (_check_race_finish at_the_line).
Proof.
  destruct (winner_recorded_once sample_rng at_the_line)
    as (_ & Hfirst & _ & _ & _).
  destruct (Hfirst 0%nat (sample_car_at "A" 1 (dec 1 16000) 1 0))
    as [Hflag Hwin]; [reflexivity | reflexivity | reflexivity | lia |].
  split; [exact Hwin|]. split; [exact Hflag|].
  destruct (winner_recorded_once sample_rng (_check_race_finish at_the_line))
    as (_ & _ & _ & _ & Hstop).
  apply Hstop. exact Hflag.
Defined.

(** C2, counterexample: after the tick in which car A wins, car B is
    RACING and short of the distance, its own [update] would move it, and
    the next tick leaves it where it is. *)
Lemma others_frozen_after_finish :
  exists r1,
    update sample_rng 1 photo_finish = Some r1 /\
    race_finished r1 = true /\ winner r1 = Some 0%nat /\
    ~ others_continue sample_rng 1 r1.
Proof.
  eexists. split; [vm_compute; reflexivity|].
  split; [reflexivity|]. split; [reflexivity|].
  intros H.
  match goal with H : others_continue _ _ ?r |- _ => set (r1 := r) in * end.
  assert (update sample_rng 1 r1 = Some r1) as Hup
    by (apply update_halted; reflexivity).
  destruct (cars r1 !! 1%nat) as [c|] eqn:Hc; [|discriminate Hc].
  destruct (car_update 1 (track r1) (speed_multiplier r1) c) as [c1|] eqn:Hc1.
  2:{ vm_compute in Hc. injection Hc as <-. vm_compute in Hc1.
      discriminate Hc1. }
  destruct (H r1 1%nat c c1 Hup Hc) as (c' & Hc' & Ht).
  - vm_compute in Hc. injection Hc as <-. reflexivity.
  - vm_compute in Hc. injection Hc as <-. reflexivity.
  - exact Hc1.
  - rewrite Hc in Hc'. injection Hc' as <-.
    vm_compute in Hc. injection Hc as <-.
    vm_compute in Hc1. injection Hc1 as <-.
    apply (f_equal this) in Ht. vm_compute in Ht. discriminate Ht.
Qed.

(** ** Race controller: a tick with [dt <= 0] *)

(** C3, as the code has it: [update] does not look at the sign of [dt].
    It is a no-op, for every [dt], when the race is not running, is paused
    or is finished: the whole state, the last snapshot handed to
    telemetry included, is returned as it is.  A tick that runs adds
    [dt * speed_multiplier] to the race clock (nothing for [dt = 0], a
    step back for [dt < 0]); with [dt = 0] and every car on the lap, the
    clock and every car's track position, speed, lap count and lap times
    are as before, while the phases of the tick (target speed and
    telemetry, pit entry, standings and gaps, collision damage, the
    finish) still run. *)
Theorem tick_without_dt_guard (rng : nat -> Qc) (r : RaceController) :
  (forall dt, halted r = true -> noop_tick rng dt r) /\
  (forall dt r',
     halted r = false -> update rng dt r = Some r' ->
     race_time r' = race_time r + dt * speed_multiplier r) /\
  (forall r',
     update rng 0 r = Some r' ->
     Forall (fun c => in_unit (track_t c)) (cars r) ->
     race_time r' = race_time r /\
     kinematics <$> cars r' = kinematics <$> cars r).
Proof.
  split; [|split].
  - intros dt Hh. apply update_halted, Hh.
  - intros dt r' Hh Hu.
    destruct (tick_kinematics rng dt r r' Hh Hu) as (cs & _ & _ & Ht).
    exact Ht.
  - intros r' Hu Hall. destruct (halted r) eqn:Hh.
    + rewrite update_halted in Hu by exact Hh. apply (inj Some) in Hu.
      subst r'. auto.
    + destruct (tick_kinematics rng 0 r r' Hh Hu) as (cs & Hm & Hk & Ht).
      split.
      * rewrite Ht, Qcmult_0_l, Qcplus_0_r. reflexivity.
      * rewrite Hk. eapply mapM_update_zero; eassumption.
Qed.

Lemma tick_without_dt_guard_witness :
  exists r',
    update sample_rng 0 three_abreast = Some r' /\
    race_time r' = race_time three_abreast /\
    kinematics <$> cars r' = kinematics <$> cars three_abreast.
Proof.
  assert (exists r', update sample_rng 0 three_abreast = Some r')
    as [r' Hu] by (eexists; vm_compute; reflexivity).
  exists r'. split; [exact Hu|].
  destruct (tick_without_dt_guard sample_rng three_abreast) as (_ & _ & H0).
  apply (H0 r' Hu).
  repeat constructor; discriminate.
Defined.

(** C3, counterexample: with [dt = 0] three cars side by side still
    collide and the first one retires; with [dt = -1] the race clock goes
    below zero. *)
Lemma nonpositive_dt_tick_not_noop :
  ~ noop_tick sample_rng 0 three_abreast /\
  ~ noop_tick sample_rng (zq (-1)) two_racing.
Proof.
  split; intros H; unfold noop_tick in H.
  - assert (fmap (M := list) state <$>
              (cars <$> update sample_rng 0 three_abreast)
            = Some [DNF; RACING; RACING]) as E by (vm_compute; reflexivity).
    rewrite H in E. vm_compute in E. discriminate E.
  - assert ((fun r => bool_decide (race_time r < 0)) <$>
              update sample_rng (zq (-1)) two_racing = Some true) as E
      by (vm_compute; reflexivity).
    rewrite H in E. vm_compute in E. discriminate E.
Qed.

(** ** Binary64 rounding: sign and the unit interval *)

Lemma this_inv (a : Qc) : (this (/ a) == / this a)%Q.
Proof. exact (Qred_correct _). Qed.


Lemma zq_pos (n : Z) : (0 < n)%Z -> 0 < zq n.
Proof.
  intros H. unfold Qclt. rewrite this_of_Z. change (this 0) with (inject_Z 0).
  rewrite <- Zlt_Qlt. exact H.
Qed.

Lemma zq_le (n m : Z) : (n <= m)%Z -> zq n <= zq m.
Proof.
  intros H. unfold Qcle. rewrite !this_of_Z. rewrite <- Zle_Qle. exact H.
Qed.

Lemma pow2_pos (k : Z) : 0 < pow2 k.
Proof.
  unfold pow2. case_decide.
  - apply zq_pos. apply Z.pow_pos_nonneg; lia.
  - assert (0 < zq (2 ^ (- k))) as H1 by (apply zq_pos, Z.pow_pos_nonneg; lia).
    unfold Qclt in *. rewrite this_inv. change (this 0) with 0%Q in *.
    apply Qinv_lt_0_compat. exact H1.
Qed.









(** ** Binary64: the remainder [x % 1.0] *)

Lemma Qceiling_unique (v : Q) (k : Z) :
  (inject_Z (k - 1) < v)%Q -> (v <= inject_Z k)%Q -> Qceiling v = k.
Proof.
  intros Hlo Hhi.
  pose proof (Qle_ceiling v) as Clo. pose proof (Qceiling_lt v) as Chi.
  assert (inject_Z (k - 1) < inject_Z (Qceiling v))%Q as H1
    by (eapply Qlt_le_trans; eassumption).
  assert (inject_Z (Qceiling v - 1) < inject_Z k)%Q as H2
    by (eapply Qlt_le_trans; eassumption).
  rewrite <- Zlt_Qlt in H1, H2. lia.
Qed.

Lemma Qceiling_plus_1 (v : Qc) : Qceiling (v + 1)%Qc = (Qceiling v + 1)%Z.
Proof.
  pose proof (Qle_ceiling v) as Clo. pose proof (Qceiling_lt v) as Chi.
  apply Qceiling_unique.
  - rewrite this_plus. replace (Qceiling v + 1 - 1)%Z with (Qceiling v) by lia.
    unfold Z.sub in Chi. rewrite inject_Z_plus, inject_Z_opp in Chi.
    change (inject_Z 1) with 1%Q in Chi.
    change (this 1) with 1%Q. lra.
  - rewrite this_plus, inject_Z_plus.
    change (this 1) with (inject_Z 1). lra.
Qed.





(** One lap further on, when the sum [t + 1.0] is exact. *)
Lemma B64_fmod1_exact_lap (t : Qc) :
  round_b64 (t + 1) = t + 1 -> B64.fmod1 (B64.fadd t 1) = B64.fmod1 t.
Proof.
  intros Hex. unfold B64.fadd at 1. rewrite Hex.
  destruct (decide (0 <= t)) as [Ht|Ht].
  - unfold B64.fmod1, py_int.
    rewrite (decide_True (P := 0 <= t)) by exact Ht.
    rewrite (decide_True (P := 0 <= t + 1)) by qc_lra.
    rewrite Qfloor_plus_1.
    replace (t + 1 - zq (Qfloor t + 1)) with (t - zq (Qfloor t)); [reflexivity|].
    apply Qc_is_canon.
    rewrite !this_minus, this_plus, !this_of_Z, inject_Z_plus.
    change (this 1) with (inject_Z 1). lra.
  - apply Qcnot_le_lt in Ht.
    destruct (decide (0 <= t + 1)) as [Ht1|Ht1].
    + (* -1 <= t < 0 *)
      assert (B64.fmod1 (t + 1) = t + 1) as ->.
      { unfold B64.fmod1, py_int.
        rewrite (decide_True (P := 0 <= t + 1)) by exact Ht1.
        assert (Qfloor (t + 1)%Qc = 0%Z) as ->.
        { apply Qfloor_unique.
          - unfold Qcle in Ht1. exact Ht1.
          - unfold Qclt in Ht. rewrite this_plus in *.
            change (this 1) with 1%Q. change (this 0) with 0%Q in Ht.
            change (inject_Z (0 + 1)) with 1%Q. lra. }
        assert (t + 1 - zq 0 = t + 1) as -> by qc_lra.
        rewrite decide_False by (apply Qcle_not_lt; exact Ht1). reflexivity. }
      unfold B64.fmod1, py_int.
      rewrite (decide_False (P := 0 <= t)) by (apply Qclt_not_le; exact Ht).
      destruct (decide (t = - (1))) as [->|Hne].
      * vm_compute. reflexivity.
      * assert (Qceiling t = 0%Z) as ->.
        { apply Qceiling_unique.
          - change (inject_Z (0 - 1)) with (-1)%Q.
            assert (- (1) < t) as Hlt.
            { destruct (Qcle_lt_or_eq (- (1)) t) as [H|H]; [qc_lra|exact H|].
              congruence. }
            unfold Qclt in Hlt. rewrite this_opp in Hlt.
            change (this 1) with 1%Q in Hlt. lra.
          - unfold Qclt in Ht. change (this 0) with 0%Q in Ht.
            change (inject_Z 0) with 0%Q. lra. }
        assert (t - zq 0 = t) as -> by qc_lra.
        rewrite decide_True by exact Ht.
        unfold B64.fadd. symmetry. exact Hex.
    + (* t < -1 *)
      apply Qcnot_le_lt in Ht1.
      unfold B64.fmod1, py_int.
      rewrite (decide_False (P := 0 <= t)) by (apply Qclt_not_le; exact Ht).
      rewrite (decide_False (P := 0 <= t + 1)) by (apply Qclt_not_le; exact Ht1).
      rewrite Qceiling_plus_1.
      replace (t + 1 - zq (Qceiling t + 1)) with (t - zq (Qceiling t));
        [reflexivity|].
      apply Qc_is_canon.
      rewrite !this_minus, this_plus, !this_of_Z, inject_Z_plus.
      change (this 1) with (inject_Z 1). lra.
Qed.

(** ** Binary64: the spline *)

Lemma B64_get_point_at_total (tr : Track) (t : Qc) :
  points tr <> [] -> is_Some (B64.get_point_at tr t).
Proof.
  intros Hp. unfold B64.get_point_at, py_mod.
  assert (Z.of_nat (length (points tr)) <> 0)%Z as Hn
    by (destruct (points tr); [done|simpl; lia]).
  generalize (B64.fmod1 t). intros u.
  set (i := py_int _). clearbody i.
  rewrite !(decide_False (P := Z.of_nat (length (points tr)) = 0%Z)) by exact Hn.
  cbn [mbind option_bind].
  destruct (py_index_mod (points tr) (i - 1) Hp) as [p0 ->].
  cbn [mbind option_bind].
  destruct (py_index_mod (points tr) i Hp) as [p1 ->].
  cbn [mbind option_bind].
  destruct (py_index_mod (points tr) (i + 1) Hp) as [p2 ->].
  cbn [mbind option_bind].
  destruct (py_index_mod (points tr) (i + 2) Hp) as [p3 ->].
  cbn [mbind option_bind]. eauto.
Qed.


(** ** Binary64: one tick of a car *)












(** ** Binary64: signs of the rounded operations *)









Lemma zq_nonneg (n : Z) : (0 <= n)%Z -> 0 <= zq n.
Proof.
  intros H. unfold Qcle. rewrite this_of_Z. change (this 0) with (inject_Z 0).
  rewrite <- Zle_Qle. exact H.
Qed.

(** ** Binary64: a car in working order stays in working order *)












(** ** Binary64: sums that are exact *)

Lemma b64_exponent_1_2 (x : Qc) : 1 <= x -> x < zq 2 -> b64_exponent x = 0%Z.
Proof.
  intros H1 H2. unfold b64_exponent.
  assert (Z.pos (Qden x) <= Qnum x)%Z as Hlo.
  { unfold Qcle, Qle in H1. simpl in H1. lia. }
  assert (Qnum x < 2 * Z.pos (Qden x))%Z as Hhi.
  { unfold Qclt, Qlt in H2. rewrite this_of_Z in H2. simpl in H2. lia. }
  rewrite Z.abs_eq by lia.
  pose proof (Z.log2_le_mono _ _ Hlo) as L1.
  assert (Z.log2 (Qnum x) <= Z.log2 (2 * Z.pos (Qden x)))%Z as L2
    by (apply Z.log2_le_mono; lia).
  rewrite Z.log2_double in L2 by lia.
  assert (py_abs x = x) as ->.
  { unfold py_abs. rewrite decide_False; [reflexivity|]. qc_lra. }
  set (e := (Z.log2 (Qnum x) - Z.log2 (Z.pos (Qden x)))%Z) in *.
  assert (e = 0 \/ e = 1)%Z as [->| ->] by lia.
  - change (pow2 0) with (zq 1). case_decide as Hc; [|reflexivity].
    exfalso. qc_lra.
  - change (pow2 1) with (zq 2). case_decide as Hc; [reflexivity|].
    exfalso. apply Hc. exact H2.
Qed.

Lemma round_half_even_int (j : Z) : round_half_even (zq j) = j.
Proof.
  unfold round_half_even. rewrite this_of_Z, Qfloor_Z.
  rewrite decide_True; [reflexivity|]. qc_lra.
Qed.

(** Adding 1.0 to a multiple of [2 ** -52] in [0,1) is exact. *)
Lemma round_b64_grid (k : Z) :
  (0 <= k < 2 ^ 52)%Z ->
  round_b64 (zq k * pow2 (-52) + 1) = zq k * pow2 (-52) + 1.
Proof.
  intros Hk. set (u := pow2 (-52)).
  assert (0 < u) as Hu by apply pow2_pos.
  assert (u <> 0) as Hu0 by (intros E; rewrite E in Hu; discriminate).
  assert (zq (2 ^ 52) * u = 1) as Hone by (apply Qc_is_canon; reflexivity).
  assert (zq k * u + 1 = zq (k + 2 ^ 52) * u) as Hx.
  { rewrite <- Hone. apply Qc_is_canon.
    rewrite this_plus, !this_mult, !this_of_Z, inject_Z_plus. ring. }
  assert (0 <= zq k * u) as Hlo.
  { pose proof (zq_nonneg k (proj1 Hk)) as Hz.
    unfold Qcle, Qclt in *. rewrite this_mult. change (this 0) with 0%Q in *.
    apply Qmult_le_0_compat; [exact Hz | lra]. }
  assert (zq k * u < 1) as Hhi.
  { rewrite <- Hone. pose proof (zq_le (k + 1) (2 ^ 52) ltac:(lia)) as Hz.
    unfold Qcle, Qclt in *. rewrite !this_mult. rewrite !this_of_Z in *.
    rewrite inject_Z_plus in Hz. change (inject_Z 1) with 1%Q in Hz.
    change (this 0) with 0%Q in *.
    apply Qmult_lt_compat_r; [exact Hu | lra]. }
  unfold round_b64. rewrite decide_False by (intros E; rewrite E in *; qc_lra).
  rewrite b64_exponent_1_2 by qc_lra.
  change (Z.max 0 (-1022) - 52)%Z with (-52)%Z. fold u.
  rewrite Hx at 1. rewrite Qcdiv_mult_l by exact Hu0.
  rewrite round_half_even_int. symmetry. exact Hx.
Qed.

(** ** Car: the track position stays on the lap *)




(** ** Track: periodicity *)

Lemma B64_get_point_at_exact_lap (tr : Track) (t : Qc) :
  round_b64 (t + 1) = t + 1 -> periodic_at tr t.
Proof.
  intros Hex. unfold periodic_at, B64.get_point_at.
  rewrite (B64_fmod1_exact_lap t Hex). reflexivity.
Qed.

(** C6 (amended): on a track with control points [get_point_at] returns
    a point for every [t]; [get_point_at (t + 1.0)] is the same result
    as [get_point_at t] for every [t] whose sum [t + 1.0] is exact in
    binary64, as it is for every multiple of [2 ** -52] in [0,1); for
    other [t] the two results can differ. *)
Theorem get_point_at_periodic_exact_sum (tr : Track) (t : Qc) :
  (points tr <> [] -> is_Some (B64.get_point_at tr t)) /\
  (round_b64 (t + 1) = t + 1 -> periodic_at tr t) /\
  (forall k : Z, (0 <= k < 2 ^ 52)%Z -> periodic_at tr (zq k * pow2 (-52))).
Proof.
  split; [|split].
  - apply B64_get_point_at_total.
  - apply B64_get_point_at_exact_lap.
  - intros k Hk. apply B64_get_point_at_exact_lap, round_b64_grid, Hk.
Qed.

Lemma get_point_at_periodic_exact_sum_witness :
  round_b64 (dec 1 2 + 1) = dec 1 2 + 1 /\
  is_Some (B64.get_point_at float_track (dec 1 2)) /\
  periodic_at float_track (dec 1 2).
Proof.
  assert (round_b64 (dec 1 2 + 1) = dec 1 2 + 1) as H
    by (apply Qc_is_canon; vm_compute; reflexivity).
  split; [exact H|].
  destruct (get_point_at_periodic_exact_sum float_track (dec 1 2))
    as (Htotal & Hperiodic & _).
  split; [apply Htotal; discriminate | apply Hperiodic; exact H].
Defined.

(** C6, counterexample: at [t = 0.1] the sum [0.1 + 1.0] is rounded, and
    the point one lap further on differs. *)
Lemma get_point_at_not_periodic :
  points float_track <> [] /\ ~ periodic_at float_track (B64.lit 1 10).
Proof.
  split; [discriminate|]. unfold periodic_at. intros H.
  apply (f_equal (fun o : option (Qc * Qc * Qc) =>
                    match o with
                    | Some (x, _, _) => Qnum (this x)
                    | None => 0%Z
                    end)) in H.
  vm_compute in H. discriminate H.
Qed.
